(** * makalu-go: the pattern-matching engine of [main.go]

    A shallow embedding of the operator dispatch ([operate]), the comparator
    table ([equalityOperators]), the structural comparator
    ([compareObjects]), the placeholder resolver ([refer]), the run over
    the entries ([processEntry]) and their discovery ([listFiles]),
    followed by their properties.

    Conventions.
    - A Go [string] is a [string] of this library (a sequence of bytes).
    - A Go [int] is a [Z]; the platform is taken to be 64-bit, so that
      [int(x)] of an [int64] is [x].
    - A dynamic value ([interface{}]) is a [value]; a Go map is an
      association list, whose order stands for the order in which one
      [range] loop happens to visit the keys.  Go leaves that order
      unspecified, so every statement below holds for every order.
    - The global slice [errors] and the standard output are threaded
      through a state monad [M]; a run-time panic and [log.Fatal] are two
      distinct abnormal outcomes. *)

From Stdlib Require Import String Ascii List ZArith Bool Lia Arith.
Import ListNotations.
Local Open Scope string_scope.

Set Implicit Arguments.
Set Warnings "-register-all".

(* ================================================================== *)
(** * Package [strings] *)

Module strings.

Definition HasPrefix (s prefix : string) : bool := String.prefix prefix s.

Definition HasSuffix (s suffix : string) : bool :=
  (String.length suffix <=? String.length s)%nat
  && String.eqb
       (substring (String.length s - String.length suffix)
                  (String.length suffix) s)
       suffix.

Definition TrimPrefix (s prefix : string) : string :=
  if HasPrefix s prefix
  then substring (String.length prefix)
                 (String.length s - String.length prefix) s
  else s.

Definition TrimSuffix (s suffix : string) : string :=
  if HasSuffix s suffix
  then substring 0 (String.length s - String.length suffix) s
  else s.

(** [strings.Index]: the byte offset of the first occurrence, or [-1]. *)
Definition Index (s substr : string) : Z :=
  match String.index 0 substr s with
  | Some n => Z.of_nat n
  | None => (-1)%Z
  end.

(** [len(s)] *)
Definition len (s : string) : Z := Z.of_nat (String.length s).

(** The slice expression [s[lo:hi]], used only with [0 <= lo <= hi <= len s]. *)
Definition slice (s : string) (lo hi : Z) : string :=
  substring (Z.to_nat lo) (Z.to_nat (hi - lo)) s.

(** [strings.Split(s, " ")] *)
Fixpoint split_space (cur : string) (s : string) : list string :=
  match s with
  | EmptyString => [cur]
  | String c s' =>
      if Ascii.eqb c " "%char
      then cur :: split_space "" s'
      else split_space (cur ++ String c "") s'
  end.

Definition Split_space (s : string) : list string := split_space "" s.

End strings.

(** The line feed that ends the messages written with [fmt.Printf]. *)
Definition LF : string := String (ascii_of_nat 10) "".

(* ================================================================== *)
(** * Dynamic values *)

(** What [encoding/json] (with [UseNumber]) and [yaml.v3] decode into an
    [interface{}]: [nil], [bool], [int] (YAML), [float64] (YAML, kept as its
    IEEE-754 bit pattern: no operation of the engine reads it),
    [json.Number] (JSON, a string holding the literal), [string],
    [[]interface{}] and [map[string]interface{}]. *)
Inductive value : Type :=
| VNil
| VBool (b : bool)
| VInt (n : Z)
| VFloat (bits : Z)
| VNumber (literal : string)
| VString (s : string)
| VSlice (items : list value)
| VMap (fields : list (string * value)).

Definition object := list (string * value).

(** [m[key]] with the comma-ok form, for a map with string keys: the value
    and whether it is present. *)
Fixpoint lookup {X : Type} (m : list (string * X)) (key : string) : option X :=
  match m with
  | [] => None
  | (k, v) :: m' => if String.eqb k key then Some v else lookup m' key
  end.

(** The second result of the comma-ok form: whether the key is present. *)
Definition has {X : Type} (m : list (string * X)) (key : string) : bool :=
  match lookup m key with
  | Some _ => true
  | None => false
  end.

(** [m[key]] without the comma-ok form: the zero value [nil] when absent. *)
Definition index (m : object) (key : string) : value :=
  match lookup m key with
  | Some v => v
  | None => VNil
  end.

Definition keys {X : Type} (m : list (string * X)) : list string := map fst m.

(** [reflect.TypeOf(v).String()].  [reflect.TypeOf(nil)] is the nil [Type],
    and calling [String] on it is a nil dereference: [None] stands for that
    panic. *)
Definition typeName (v : value) : option string :=
  match v with
  | VNil => None
  | VBool _ => Some "bool"
  | VInt _ => Some "int"
  | VFloat _ => Some "float64"
  | VNumber _ => Some "json.Number"
  | VString _ => Some "string"
  | VSlice _ => Some "[]interface {}"
  | VMap _ => Some "map[string]interface {}"
  end.

(** Nesting depth of a value; the recursion of [operate] through the
    comparator table descends along it. *)
Fixpoint height (v : value) : nat :=
  match v with
  | VSlice items => S (fold_right (fun x acc => Nat.max (height x) acc) 0%nat items)
  | VMap fields =>
      S (fold_right (fun kv acc => Nat.max (height (snd kv)) acc) 0%nat fields)
  | _ => 0%nat
  end.

(* ================================================================== *)
(** * [json.Number.Int64], that is [strconv.ParseInt(s, 10, 64)] *)

Module strconv.

Definition digit (c : ascii) : option Z :=
  let n := nat_of_ascii c in
  if ((48 <=? n) && (n <=? 57))%nat then Some (Z.of_nat (n - 48)) else None.

(** [ParseUint(s, 10, 64)] on a non-empty string: every byte is a decimal
    digit and the value stays below [2^64]. *)
Fixpoint parse_digits (acc : Z) (s : string) : option Z :=
  match s with
  | EmptyString => Some acc
  | String c s' =>
      match digit c with
      | None => None
      | Some d =>
          let acc' := (acc * 10 + d)%Z in
          if (acc' <? 2 ^ 64)%Z then parse_digits acc' s' else None
      end
  end.

Definition ParseUint (s : string) : option Z :=
  match s with
  | EmptyString => None
  | _ => parse_digits 0 s
  end.

Definition ParseInt (s : string) : option Z :=
  match s with
  | EmptyString => None
  | String c s' =>
      let '(neg, body) :=
        if Ascii.eqb c "+"%char then (false, s')
        else if Ascii.eqb c "-"%char then (true, s')
        else (false, s) in
      match ParseUint body with
      | None => None
      | Some un =>
          let cutoff := (2 ^ 63)%Z in
          if negb neg && (cutoff <=? un)%Z then None
          else if neg && (cutoff <? un)%Z then None
          else Some (if neg then (- un)%Z else un)
      end
  end.

End strconv.

(* ================================================================== *)
(** * Diagnostics, the process state and the monad of effects *)

Record Entry : Type := mkEntry { longName : string; shortName : string }.

Record Error : Type := mkError {
  message : string;
  actualKey : string;
  expectedKey : string;
  category : string;
  entry : Entry
}.

(** An [Error] literal that leaves [entry] at its zero value. *)
Definition Error_ (message actualKey expectedKey category : string) : Error :=
  mkError message actualKey expectedKey category (mkEntry "" "").

(** An argument of [fmt.Printf]: a string for [%s], any value for [%v]. *)
Inductive arg : Type :=
| AStr (s : string)
| AVal (v : value).

(** The observable state of the process: the global [errors], what was
    written with [fmt.Printf] (format and arguments, oldest first), and the
    calls made to [regexp.MatchString] (pattern and subject, oldest
    first). *)
Record world : Type := mkWorld {
  errors : list Error;
  stdout : list (string * list arg);
  regexCalls : list (string * string)
}.

Definition world0 : world := mkWorld [] [] [].

(** How a computation ends: it returns, it panics, or it ends the process
    with [log.Fatal] (which calls [os.Exit(1)]). *)
Inductive outcome (A : Type) : Type :=
| Return (a : A) (w : world)
| Panic (w : world)
| Exit (w : world).

Arguments Return {A} a w.
Arguments Panic {A} w.
Arguments Exit {A} w.

Definition M (A : Type) : Type := world -> outcome A.

Definition ret {A} (a : A) : M A := fun w => Return a w.

Definition bind {A B} (m : M A) (f : A -> M B) : M B :=
  fun w =>
    match m w with
    | Return a w' => f a w'
    | Panic w' => Panic w'
    | Exit w' => Exit w'
    end.

Notation "x <- m ;; k" := (bind m (fun x => k))
  (at level 61, m at next level, right associativity).
Notation "m ;;; k" := (bind m (fun _ => k))
  (at level 61, right associativity).

Definition panic {A} : M A := fun w => Panic w.
Definition log_Fatal {A} : M A := fun w => Exit w.

(** The state after appending diagnostics, writing one [Printf], or
    calling the regular-expression library once. *)
Definition withErrors (w : world) (es : list Error) : world :=
  mkWorld (errors w ++ es) (stdout w) (regexCalls w).

Definition withError (w : world) (e : Error) : world := withErrors w [e].

Definition withOutput (w : world) (format : string) (args : list arg) : world :=
  mkWorld (errors w) (stdout w ++ [(format, args)]) (regexCalls w).

Definition withRegexCall (w : world) (pattern s : string) : world :=
  mkWorld (errors w) (stdout w) (regexCalls w ++ [(pattern, s)]).

(** [errors = append(errors, e)] *)
Definition appendError (e : Error) : M unit :=
  fun w => Return tt (withError w e).

Definition Printf (format : string) (args : list arg) : M unit :=
  fun w => Return tt (withOutput w format args).

Definition noteRegexCall (pattern s : string) : M unit :=
  fun w => Return tt (withRegexCall w pattern s).

(** [reflect.TypeOf(v).String()] as a step of a computation. *)
Definition TypeOfString (v : value) : M string :=
  match typeName v with
  | Some t => ret t
  | None => panic
  end.

(** The type assertion [v.(string)], which panics on any other type. *)
Definition asString (v : value) : M string :=
  match v with
  | VString s => ret s
  | _ => panic
  end.

(** The final state of a computation, however it ended. *)
Definition final {A} (o : outcome A) : world :=
  match o with
  | Return _ w => w
  | Panic w => w
  | Exit w => w
  end.

(** A [for k := range m] loop: the body runs once per key, in the order
    the runtime happens to choose, here the order of the list. *)
Fixpoint forRange (body : string -> M unit) (ks : list string) : M unit :=
  match ks with
  | [] => ret tt
  | k :: ks' => body k ;;; forRange body ks'
  end.

(** The same loop when its body updates a local variable. *)
Fixpoint forRangeWith {S : Type} (body : string -> S -> M S)
    (ks : list string) (s : S) : M S :=
  match ks with
  | [] => ret s
  | k :: ks' => s' <- body k s ;; forRangeWith body ks' s'
  end.

(* ================================================================== *)
(** * External collaborators *)

Record TestCase : Type := mkTestCase {
  Target : string;
  In : object;
  Out : object
}.

(** The library functions and the input/output the engine relies on but
    does not define.
    - [regexp_MatchString pattern s] is [None] when the pattern does not
      compile, and otherwise whether [s] contains a match.
    - [jsonpath_Read context path] is [None] when the query fails.
    - [readConf] reads and decodes one specification file.
    - [http_Get] and [http_Post] return the decoded response object, or
      [None] on a transport error. *)
Class Collaborators : Type := {
  regexp_MatchString : string -> string -> option bool;
  jsonpath_Read : object -> string -> option value;
  strings_TrimSpace : string -> string;
  readConf : string -> option TestCase;
  http_Get : string -> option object;
  http_Post : string -> object -> option object
}.

(* ================================================================== *)
(** * Operators and the comparator table *)

(** The format of the message written when no comparator is registered
    for a pair of type names. *)
Definition unsupportedMessage : string :=
  "Makalu does not currently support %s vs %s comparisons!" ++ LF.

Definition EqualityOperatorCompartor : Type :=
  value -> value -> string -> string -> bool -> M bool.

(** The functions of this module take the function [operate] they call
    back as a parameter; the recursion is closed below. *)
Module Open.
Section WithOperate.

Context {ext : Collaborators}.

Variable operate : value -> string -> value -> string -> string -> M bool.

(** [equalityOperators["string"]["string"]] *)
Definition string_string : EqualityOperatorCompartor :=
  fun actual0 expected0 actualKey expectedKey inverse =>
    match actual0, expected0 with
    | VString actual, VString expected =>
        if strings.HasPrefix expected "$" then
          if inverse && String.eqb expected "$string" then
            appendError (Error_ "Unexpected value type" actualKey
                           (expectedKey ++ ":" ++ expected) "response_error") ;;;
            ret false
          else if negb inverse && negb (String.eqb expected "$string") then
            appendError (Error_ "Unexpected value type" actualKey
                           (expectedKey ++ ":" ++ expected) "response_error") ;;;
            ret false
          else ret true
        else if inverse && String.eqb actual expected then
          appendError (Error_ "Values are equal" actualKey expectedKey
                         "response_error") ;;;
          ret false
        else if negb inverse && negb (String.eqb actual expected) then
          appendError (Error_ "Values are not equal" actualKey expectedKey
                         "response_error") ;;;
          ret false
        else ret true
    | _, _ => panic
    end.

(** [equalityOperators["string"]["map[string]interface {}"]] *)
Definition string_map : EqualityOperatorCompartor :=
  fun actual0 expected0 parentActualKey parentExpectedKey inverse =>
    match actual0, expected0 with
    | VString actualValue, VMap expectedValue =>
        forRangeWith
          (fun expectedKey (result : bool) =>
             let operand2 := index expectedValue expectedKey in
             if strings.HasPrefix expectedKey "$" then
               if result
               then operate (VString actualValue) expectedKey operand2
                      parentActualKey (parentExpectedKey ++ "." ++ expectedKey)
               else ret false
             else
               appendError (Error_ "Cannot mix operators and fields"
                              parentActualKey parentExpectedKey "spec_error") ;;;
               ret false)
          (keys expectedValue) true
    | _, _ => panic
    end.

(** [equalityOperators["json.Number"]["string"]] *)
Definition number_string : EqualityOperatorCompartor :=
  fun actual0 expected0 actualKey expectedKey inverse =>
    match expected0 with
    | VString expected =>
        if strings.HasPrefix expected "$" then
          if negb (String.eqb expected "$number") then
            appendError (Error_ "Unexpected value type" actualKey
                           (expectedKey ++ ":" ++ expected) "response_error") ;;;
            ret false
          else ret true
        else
          appendError (Error_ "Values are not equal" actualKey expectedKey
                         "response_error") ;;;
          ret false
    | _ => panic
    end.

(** [equalityOperators["json.Number"]["int"]] *)
Definition number_int : EqualityOperatorCompartor :=
  fun actual0 expected0 actualKey expectedKey inverse =>
    let mismatch :=
      appendError (Error_ "Values are not equal" actualKey expectedKey
                     "response_error") ;;;
      ret false in
    match actual0 with
    | VNumber literal =>
        match strconv.ParseInt literal with
        | Some actual =>
            match expected0 with
            | VInt expected =>
                if (actual =? expected)%Z then ret true else mismatch
            | _ => panic
            end
        | None => mismatch
        end
    | _ => panic
    end.

(** [equalityOperators["json.Number"]["map[string]interface {}"]] *)
Definition number_map : EqualityOperatorCompartor :=
  fun actual0 expected0 actualKey expectedKey inverse =>
    match actual0, expected0 with
    | VNumber actualValue, VMap expectedValue =>
        forRangeWith
          (fun expectedKey (result : bool) =>
             let operand2 := index expectedValue expectedKey in
             if strings.HasPrefix expectedKey "$" then
               if result
               then operate (VNumber actualValue) expectedKey operand2 "" ""
               else ret false
             else
               appendError (Error_ "Cannot mix operators and fields"
                              actualKey expectedKey "spec_error") ;;;
               ret false)
          (keys expectedValue) true
    | _, _ => panic
    end.

Definition equalityOperators
  : list (string * list (string * EqualityOperatorCompartor)) :=
  [ ("string",
      [ ("string", string_string);
        ("map[string]interface {}", string_map) ]);
    ("json.Number",
      [ ("string", number_string);
        ("int", number_int);
        ("map[string]interface {}", number_map) ]) ].

(** [equalityOperators[a][b]] with the comma-ok form; indexing a missing
    inner map yields no entry. *)
Definition comparatorFor (a b : string) : option EqualityOperatorCompartor :=
  match lookup equalityOperators a with
  | Some inner => lookup inner b
  | None => None
  end.

Definition unsupported (actualValueType expectedValueType : string) : M unit :=
  Printf unsupportedMessage [AStr actualValueType; AStr expectedValueType].

Definition executeIsOperator (operand1 : value) (operand2 : string)
    (actualKey expectedKey : string) (inverse : bool) : M bool :=
  let expectedTypeName := strings.TrimPrefix operand2 "$" in
  actualTypeName <- TypeOfString operand1 ;;
  if inverse then
    if negb (String.eqb actualTypeName expectedTypeName) then ret true
    else
      appendError (Error_ "Value type matched" actualKey expectedKey
                     "response_error") ;;;
      ret false
  else
    if String.eqb actualTypeName expectedTypeName then ret true
    else
      appendError (Error_ "Value type mismatched" actualKey expectedKey
                     "response_error") ;;;
      ret false.

Definition executeNeOperator (actualValue expectedValue : value)
    (actualKey expectedKey : string) : M bool :=
  actualValueType <- TypeOfString actualValue ;;
  expectedValueType <- TypeOfString expectedValue ;;
  match comparatorFor actualValueType expectedValueType with
  | Some comparator =>
      comparator actualValue expectedValue actualKey expectedKey true
  | None =>
      unsupported actualValueType expectedValueType ;;;
      ret false
  end.

Definition executeRegexOperator (actualValue0 : value) (expectedValue : string)
    (actualKey expectedKey : string) : M bool :=
  actualValueType <- TypeOfString actualValue0 ;;
  if negb (String.eqb actualValueType "string") then
    appendError (Error_ "Unexpected value type" actualKey expectedKey
                   "response_error") ;;;
    ret false
  else
    actualValue <- asString actualValue0 ;;
    noteRegexCall expectedValue actualValue ;;;
    match regexp_MatchString expectedValue actualValue with
    | None =>
        appendError (Error_ "Invalid regex pattern" actualKey expectedKey
                       "spec_error") ;;;
        ret false
    | Some matched =>
        (if negb matched then
           appendError (Error_ "Regex mismatch" actualKey expectedKey
                          "response_error")
         else ret tt) ;;;
        ret matched
    end.

(** The body of [operate].  A Go [switch] case does not fall through:
    the empty [case "$is":] leaves the switch and reaches the final
    [return false]. *)
Definition operate_body (operand1 : value) (operator : string)
    (operand2 : value) (parentActualKey parentExpectedKey : string) : M bool :=
  if String.eqb operator "$is" then
    ret false
  else if String.eqb operator "$is_not" then
    let expectsTypeName :=
      appendError (Error_ (operator ++ " operator expects type name")
                     parentActualKey parentExpectedKey "spec_error") ;;;
      ret false in
    typeName <- TypeOfString operand2 ;;
    if negb (String.eqb typeName "string") then expectsTypeName
    else
      operand2s <- asString operand2 ;;
      if negb (strings.HasPrefix operand2s "$") then expectsTypeName
      else
        executeIsOperator operand1 operand2s parentActualKey
          (parentActualKey ++ "." ++ operator)
          (String.eqb operator "$is_not")
  else if String.eqb operator "$ne" then
    executeNeOperator operand1 operand2 parentActualKey parentExpectedKey
  else if String.eqb operator "$regex" then
    typeName <- TypeOfString operand2 ;;
    if negb (String.eqb typeName "string") then
      appendError (Error_ "$regex operator expects regex pattern"
                     parentActualKey parentExpectedKey "spec_error") ;;;
      ret false
    else
      operand2s <- asString operand2 ;;
      executeRegexOperator operand1 operand2s parentActualKey parentExpectedKey
  else ret false.

End WithOperate.
End Open.

(** [operate] calls itself only through the comparators for a map operand,
    and then on a value stored in that map: the recursion descends along
    the nesting of [operand2], and [height operand2] levels are enough. *)
Fixpoint operate_at {ext : Collaborators} (levels : nat)
    : value -> string -> value -> string -> string -> M bool :=
  match levels with
  | O => fun _ _ _ _ _ => panic
  | S levels' => Open.operate_body (operate_at levels')
  end.

Definition operate {ext : Collaborators} (operand1 : value) (operator : string)
    (operand2 : value) (parentActualKey parentExpectedKey : string) : M bool :=
  operate_at (S (height operand2)) operand1 operator operand2
    parentActualKey parentExpectedKey.

(** The comparator table and the operators, with the recursion closed. *)
Definition equalityOperators {ext : Collaborators}
    : list (string * list (string * EqualityOperatorCompartor)) :=
  Open.equalityOperators operate.

Definition comparatorFor {ext : Collaborators}
    : string -> string -> option EqualityOperatorCompartor :=
  Open.comparatorFor operate.

Definition executeIsOperator := Open.executeIsOperator.

Definition executeNeOperator {ext : Collaborators}
    : value -> value -> string -> string -> M bool :=
  Open.executeNeOperator operate.

Definition executeRegexOperator {ext : Collaborators}
    : value -> string -> string -> string -> M bool :=
  Open.executeRegexOperator.

(* ================================================================== *)
(** * The structural comparator *)

Section CompareObjects.

Context {ext : Collaborators}.

Variables actual expected : object.
Variables parentActualKey parentExpectedKey : string.

(** The body of the first loop of [compareObjects]. *)
Definition unknownKeyStep (key : string) : M unit :=
  let optionalKey := key ++ "?" in
  let keyExists := has expected key in
  let optionalKeyExists := has expected optionalKey in
  if negb keyExists && negb optionalKeyExists then
    appendError (Error_ ("Unknown key " ++ key)
                   (parentActualKey ++ "." ++ key)
                   (parentExpectedKey ++ ".$unknown")
                   "match_error")
  else ret tt.

(** The body of the second loop of [compareObjects]. *)
Definition expectedKeyStep (expectedKey : string) : M unit :=
  let '(actualKey, optional) :=
    if strings.HasSuffix expectedKey "?"
    then (strings.TrimSuffix expectedKey "?", true)
    else (expectedKey, false) in
  match lookup actual actualKey with
  | None =>
      if negb optional then
        appendError (Error_ ("Cannot find required key '" ++ actualKey ++ "'")
                       (parentActualKey ++ ".<" ++ actualKey ++ ">")
                       (parentExpectedKey ++ "." ++ expectedKey)
                       "match_error")
      else ret tt
  | Some actualValue =>
      let expectedValue := index expected expectedKey in
      if strings.HasPrefix expectedKey "$" then
        operate actualValue expectedKey expectedValue
          (parentActualKey ++ "." ++ actualKey)
          (parentExpectedKey ++ "." ++ expectedKey) ;;;
        ret tt
      else
        actualValueType <- TypeOfString actualValue ;;
        expectedValueType <- TypeOfString expectedValue ;;
        match comparatorFor actualValueType expectedValueType with
        | Some comparator =>
            comparator actualValue expectedValue
              (parentActualKey ++ "." ++ actualKey)
              (parentExpectedKey ++ "." ++ expectedKey)
              false ;;;
            ret tt
        | None => Open.unsupported actualValueType expectedValueType
        end
  end.

Definition compareObjects : M unit :=
  forRange unknownKeyStep (keys actual) ;;;
  forRange expectedKeyStep (keys expected).

End CompareObjects.

(* ================================================================== *)
(** * The placeholder resolver and the run over the entries *)

Section Run.

Context {ext : Collaborators}.

(** One iteration of the loop of [refer], entered with [index < len(value)]:
    the new [index] and the new contents of [buffer]. *)
Definition refer_body (value : string) (context : object)
    (index : Z) (buffer : string) : M (Z * string) :=
  let startIndex := strings.Index value "{{" in
  if (startIndex >=? index)%Z then
    let buffer := buffer ++ strings.slice value index startIndex in
    let stopIndex := strings.Index value "}}" in
    if (stopIndex >=? startIndex + 2)%Z then
      let snippet :=
        strings_TrimSpace (strings.slice value (startIndex + 2) stopIndex) in
      Printf "%v %v" [AStr snippet; AVal (VMap context)] ;;;
      match jsonpath_Read context ("$." ++ snippet) with
      | None => log_Fatal
      | Some found =>
          text <- asString found ;;
          ret ((stopIndex + 2)%Z, buffer ++ text)
      end
    else ret (index, buffer)
  else
    ret (strings.len value,
         buffer ++ strings.slice value index (strings.len value)).

(** The loop of [refer].  Nothing bounds the number of iterations, so the
    loop is run for at most [fuel] of them: [None] means that it was
    still running after that many. *)
Fixpoint refer_loop (fuel : nat) (value : string) (context : object)
    (index : Z) (buffer : string) (w : world) : option (outcome string) :=
  if (index <? strings.len value)%Z then
    match fuel with
    | O => None
    | S fuel' =>
        match refer_body value context index buffer w with
        | Return (index', buffer') w' =>
            refer_loop fuel' value context index' buffer' w'
        | Panic w' => Some (Panic w')
        | Exit w' => Some (Exit w')
        end
    end
  else Some (Return buffer w).

Definition refer (fuel : nat) (value : string) (context : object)
    : world -> option (outcome string) :=
  refer_loop fuel value context 0 "".

(** [printResponse]: the response, pretty-printed, on one line of output. *)
Definition printResponse (obj : object) : M unit :=
  Printf ("%s" ++ LF) [AVal (VMap obj)].

(** [processEntry] after the target has been resolved. *)
Definition execute (testCase : TestCase) (target : string) : M unit :=
  Printf ("[*] Executing '%s'" ++ LF) [AStr target] ;;;
  match strings.Split_space target with
  | method :: url :: _ =>
      (if String.eqb method "GET" then
         match http_Get url with
         | None => log_Fatal
         | Some responseObject =>
             printResponse responseObject ;;;
             compareObjects responseObject (Out testCase) "$root" "$root.out"
         end
       else ret tt) ;;;
      (if String.eqb method "POST" then
         match http_Post url (In testCase) with
         | None => log_Fatal
         | Some responseObject =>
             printResponse responseObject ;;;
             compareObjects responseObject (Out testCase) "$root" "$root.out"
         end
       else ret tt)
  | _ => panic
  end.

Definition processEntry (fuel : nat) (entry : Entry) (context : object)
    (w : world) : option (outcome unit) :=
  match readConf (longName entry) with
  | None => Some (Exit w)
  | Some testCase =>
      let cleanTarget := strings_TrimSpace (Target testCase) in
      if String.eqb cleanTarget "" then
        Some (appendError
                (mkError "Target expected" "" "$root.target" "spec_error" entry) w)
      else
        match refer fuel (Target testCase) context w with
        | None => None
        | Some (Return target w') => Some (execute testCase target w')
        | Some (Panic w') => Some (Panic w')
        | Some (Exit w') => Some (Exit w')
        end
  end.

(** The loop of [main] over the discovered entries. *)
Fixpoint processEntries (fuel : nat) (entries : list Entry) (context : object)
    (w : world) : option (outcome unit) :=
  match entries with
  | [] => Some (Return tt w)
  | entry :: entries' =>
      match processEntry fuel entry context w with
      | None => None
      | Some (Return _ w') => processEntries fuel entries' context w'
      | Some (Panic w') => Some (Panic w')
      | Some (Exit w') => Some (Exit w')
      end
  end.

End Run.

(* ================================================================== *)
(** * Discovery of the specification files *)

(** What [os.ReadDir] and [IsDir] show of the file system: a name leads to
    a file, to a directory with its entries, or to a directory that cannot
    be read. *)
Inductive node : Type :=
| File
| Dir (children : list (string * node))
| Unreadable.

(** [string(os.PathSeparator)], on a Unix system. *)
Definition PathSeparator : string := "/".

(** [listFiles], started on the directory [dir] with [listed] for [*list]:
    the list after the call,
    or [None] when [os.ReadDir] fails and [log.Fatal] ends the process. *)
Fixpoint listFiles (longRoot shortRoot : string) (dir : node) (listed : list Entry)
    {struct dir} : option (list Entry) :=
  match dir with
  | Dir entries =>
      (fix loop (entries : list (string * node)) (listed : list Entry)
         : option (list Entry) :=
         match entries with
         | [] => Some listed
         | (name, child) :: entries' =>
             let longName := longRoot ++ PathSeparator ++ name in
             let shortName := shortRoot ++ PathSeparator ++ name in
             match child with
             | File =>
                 if negb (String.eqb shortName ("." ++ PathSeparator ++ "vars.yaml"))
                 then loop entries' (listed ++ [mkEntry longName shortName])%list
                 else loop entries' listed
             | _ =>
                 match listFiles longName shortName child listed with
                 | Some listed' => loop entries' listed'
                 | None => None
                 end
             end
         end) entries listed
  | _ => None
  end.

(* ================================================================== *)
(** * Vocabulary of the statements *)

(** The diagnostic of the first loop of [compareObjects] for [key]. *)
Definition unknownKeyError (parentActualKey parentExpectedKey key : string) : Error :=
  Error_ ("Unknown key " ++ key)
         (parentActualKey ++ "." ++ key)
         (parentExpectedKey ++ ".$unknown")
         "match_error".

(** The condition under which the first loop reports [key]. *)
Definition unknownKey (expected : object) (key : string) : bool :=
  negb (has expected key) && negb (has expected (key ++ "?")).

(** The diagnostic of the second loop for an expected key that is absent. *)
Definition missingKeyError (parentActualKey parentExpectedKey expectedKey : string)
    : Error :=
  let actualKey := strings.TrimSuffix expectedKey "?" in
  Error_ ("Cannot find required key '" ++ actualKey ++ "'")
         (parentActualKey ++ ".<" ++ actualKey ++ ">")
         (parentExpectedKey ++ "." ++ expectedKey)
         "match_error".

(** An expected key without the optional suffix that [actual] lacks. *)
Definition missingRequired (actual : object) (expectedKey : string) : bool :=
  negb (has actual (strings.TrimSuffix expectedKey "?"))
  && negb (strings.HasSuffix expectedKey "?").

Definition isUnknownKeyError (e : Error) : bool :=
  String.eqb (category e) "match_error"
  && strings.HasPrefix (message e) "Unknown key ".

Definition isMissingKeyError (e : Error) : bool :=
  String.eqb (category e) "match_error"
  && strings.HasPrefix (message e) "Cannot find required key '".

(** The categories of the diagnostics that operators and comparators
    append. *)
Definition operatorError (e : Error) : Prop :=
  category e = "response_error" \/ category e = "spec_error".

(** [m] only appends to [errors], and what it appends satisfies [P],
    however [m] ends. *)
Definition appendsOnly {A : Type} (P : Error -> Prop) (m : M A) : Prop :=
  forall w, exists added,
    errors (final (m w)) = (errors w ++ added)%list /\ Forall P added.

(** A computation that returns [true] has appended no diagnostic. *)
Definition silentWhenTrue (m : M bool) : Prop :=
  forall w u, m w = Return true u -> errors u = errors w.

(** The expected key is present in [actual] (without its optional suffix),
    is not an operator, and the comparator registered for the two values
    returns [true]. *)
Definition accepted {ext : Collaborators} (actual expected : object)
    (pa pe expectedKey : string) : Prop :=
  exists actualValue ta te comparator,
    lookup actual (strings.TrimSuffix expectedKey "?") = Some actualValue
    /\ strings.HasPrefix expectedKey "$" = false
    /\ typeName actualValue = Some ta
    /\ typeName (index expected expectedKey) = Some te
    /\ comparatorFor ta te = Some comparator
    /\ forall w, exists u,
         comparator actualValue (index expected expectedKey)
           (pa ++ "." ++ strings.TrimSuffix expectedKey "?")
           (pe ++ "." ++ expectedKey) false w
         = Return true u.

(** A diagnostic of a comparison: it names no specification entry and its
    category is one of the three. *)
Definition comparisonError (e : Error) : Prop :=
  entry e = mkEntry "" ""
  /\ (category e = "match_error" \/ category e = "response_error"
      \/ category e = "spec_error").

(** The value is not [nil]. *)
Definition typed (v : value) : bool :=
  match typeName v with
  | Some _ => true
  | None => false
  end.

(** The value is not [nil], and neither is any value stored in it when it
    is a map, at any depth: what [operate] and the comparators may look
    at. *)
Fixpoint operandsTyped (v : value) : bool :=
  match v with
  | VNil => false
  | VMap fields => forallb (fun kv => operandsTyped (snd kv)) fields
  | _ => true
  end.

Definition neverExits {A : Type} (m : M A) : Prop :=
  forall w u, m w <> Exit u.

Definition returns {A : Type} (m : M A) : Prop :=
  forall w, exists a u, m w = Return a u.

(** What the recursion needs from the function called back: it returns
    on every operand stored in [e]. *)
Definition returnsBelow (f : value -> string -> value -> string -> string -> M bool)
    (e : value) : Prop :=
  forall v, (height v < height e)%nat -> operandsTyped v = true ->
  forall a, typed a = true -> forall op pa pe, returns (f a op v pa pe).

(** An entry found below the pair of roots: both names continue their root
    with the same relative path, and the short name is not that of the
    variables file. *)
Definition foundBelow (longRoot shortRoot : string) (e : Entry) : Prop :=
  (exists path, longName e = longRoot ++ path /\ shortName e = shortRoot ++ path)
  /\ shortName e <> "./vars.yaml".

(** Induction on a directory tree, with the hypothesis for every entry of a
    directory. *)
Fixpoint node_ind' (P : node -> Prop)
    (HFile : P File) (HUnreadable : P Unreadable)
    (HDir : forall entries, Forall (fun kv => P (snd kv)) entries -> P (Dir entries))
    (n : node) : P n :=
  match n with
  | File => HFile
  | Unreadable => HUnreadable
  | Dir entries =>
      HDir entries
        ((fix all (l : list (string * node)) : Forall (fun kv => P (snd kv)) l :=
            match l with
            | [] => Forall_nil _
            | kv :: l' => Forall_cons kv (node_ind' P HFile HUnreadable HDir (snd kv)) (all l')
            end) entries)
  end.

(** A diagnostic of a run over [entries]: one of a comparison, or the one
    for a blank target, which names its entry. *)
Definition runError (entries : list Entry) (e : Error) : Prop :=
  comparisonError e
  \/ exists entry,
       List.In entry entries
       /\ e = mkError "Target expected" "" "$root.target" "spec_error" entry.

(* ================================================================== *)
(** * A concrete environment, to run the engine on examples *)

Module Demo.

Definition isSpace (c : ascii) : bool :=
  let n := nat_of_ascii c in
  ((9 <=? n) && (n <=? 13) || (n =? 32))%nat.

Fixpoint trimLeft (s : string) : string :=
  match s with
  | String c s' => if isSpace c then trimLeft s' else s
  | EmptyString => EmptyString
  end.

Fixpoint rev_string (acc s : string) : string :=
  match s with
  | EmptyString => acc
  | String c s' => rev_string (String c acc) s'
  end.

(** [strings.TrimSpace] on ASCII text. *)
Definition TrimSpace (s : string) : string :=
  rev_string "" (trimLeft (rev_string "" (trimLeft s))).

Definition isMeta (c : ascii) : bool :=
  existsb (Ascii.eqb c) (list_ascii_of_string "\.+*?()|[]{}^$").

Definition contains (s sub : string) : bool :=
  match String.index 0 sub s with
  | Some _ => true
  | None => false
  end.

(** [regexp.MatchString] on the patterns of the examples: a pattern
    without metacharacters matches where it occurs; the pattern ["("]
    does not compile.  Other patterns are outside this stand-in, which
    rejects them. *)
Definition MatchString (pattern s : string) : option bool :=
  if existsb isMeta (list_ascii_of_string pattern) then None
  else Some (contains s pattern).

Fixpoint split_dot (cur s : string) : list string :=
  match s with
  | EmptyString => [cur]
  | String c s' =>
      if Ascii.eqb c "."%char
      then cur :: split_dot "" s'
      else split_dot (cur ++ String c "") s'
  end.

Fixpoint walk (v : value) (path : list string) : option value :=
  match path with
  | [] => Some v
  | k :: path' =>
      match v with
      | VMap fields =>
          match lookup fields k with
          | Some v' => walk v' path'
          | None => None
          end
      | _ => None
      end
  end.

(** [jsonpath.Read] on the queries of the examples: [$] followed by
    dotted member names. *)
Definition Read (context : object) (path : string) : option value :=
  if strings.HasPrefix path "$."
  then walk (VMap context) (split_dot "" (strings.TrimPrefix path "$."))
  else None.

(** No specification file and no server: the examples that need them
    give their own. *)
#[export] Instance env : Collaborators := {|
  regexp_MatchString := MatchString;
  jsonpath_Read := Read;
  strings_TrimSpace := TrimSpace;
  readConf := fun _ => None;
  http_Get := fun _ => None;
  http_Post := fun _ _ => None
|}.

(** An environment with the given files and the given responses to GET. *)
Definition envWith (files : list (string * TestCase))
    (server : list (string * object)) : Collaborators := {|
  regexp_MatchString := MatchString;
  jsonpath_Read := Read;
  strings_TrimSpace := TrimSpace;
  readConf := lookup files;
  http_Get := lookup server;
  http_Post := fun url _ => lookup server url
|}.

(** Two specification files: the first has a placeholder that the empty
    context cannot resolve, the second has a blank target. *)
Definition files : list (string * TestCase) :=
  [ ("./a.yaml", mkTestCase "GET {{vars.host}}/mountains/1" [] []);
    ("./b.yaml", mkTestCase "   " [] []) ].

Definition entries : list Entry :=
  [ mkEntry "./a.yaml" "./a.yaml"; mkEntry "./b.yaml" "./b.yaml" ].

(** A context with one string and one number under [vars]. *)
Definition context : object :=
  [("vars", VMap [("host", VString "http://localhost"); ("port", VNumber "80")])].

(** A working directory with a variables file at the root and another one
    in a subdirectory. *)
Definition tree : node :=
  Dir [ ("mountains", Dir [ ("everest.yaml", File); ("vars.yaml", File) ]);
        ("vars.yaml", File) ].

End Demo.

(* ================================================================== *)
(** * The recursion of [operate] *)

Section Knot.
Context {ext : Collaborators}.

Lemma forRangeWith_ext (S : Type) (b1 b2 : string -> S -> M S) ks :
  (forall k, List.In k ks -> forall s w, b1 k s w = b2 k s w) ->
  forall s w, forRangeWith b1 ks s w = forRangeWith b2 ks s w.
Proof.
  induction ks as [|k ks IH]; intros Hb s w; [reflexivity|].
  simpl. unfold bind. rewrite (Hb k (or_introl eq_refl)).
  destruct (b2 k s w); try reflexivity.
  apply IH. intros k' Hk'. apply Hb. now right.
Qed.

Lemma height_lookup fields k v :
  lookup fields k = Some v -> (height v < height (VMap fields))%nat.
Proof.
  simpl. induction fields as [|[k' v'] fields IH]; simpl; [discriminate|].
  destruct (String.eqb k' k).
  - intros [= ->]. lia.
  - intros H. specialize (IH H). lia.
Qed.

Lemma height_index fields k : (height (index fields k) < height (VMap fields))%nat.
Proof.
  unfold index. destruct (lookup fields k) eqn:E.
  - eapply height_lookup; eauto.
  - simpl. lia.
Qed.

Lemma operate_body_ext f g a op e pa pe w :
  (forall v, (height v < height e)%nat ->
     forall a' op' pa' pe' w', f a' op' v pa' pe' w' = g a' op' v pa' pe' w') ->
  Open.operate_body f a op e pa pe w = Open.operate_body g a op e pa pe w.
Proof.
  intros Hfg. unfold Open.operate_body.
  destruct (String.eqb op "$is"); [reflexivity|].
  destruct (String.eqb op "$is_not"); [reflexivity|].
  destruct (String.eqb op "$ne"); [|reflexivity].
  unfold Open.executeNeOperator, bind, TypeOfString.
  destruct a; simpl; try reflexivity; destruct e; simpl; try reflexivity.
  - apply forRangeWith_ext. intros k _ s0 w0.
    destruct (strings.HasPrefix k "$"); [|reflexivity].
    destruct s0; [|reflexivity]. apply Hfg, height_index.
  - apply forRangeWith_ext. intros k _ s0 w0.
    destruct (strings.HasPrefix k "$"); [|reflexivity].
    destruct s0; [|reflexivity]. apply Hfg, height_index.
Qed.

Lemma operate_at_stable n : forall m e, (height e < n)%nat -> (height e < m)%nat ->
  forall a op pa pe w, operate_at n a op e pa pe w = operate_at m a op e pa pe w.
Proof.
  induction n as [|n IH]; intros m e Hn Hm a op pa pe w; [lia|].
  destruct m as [|m]; [lia|]. simpl.
  apply operate_body_ext. intros v Hv a' op' pa' pe' w'.
  apply IH; lia.
Qed.

Lemma operate_eq a op e pa pe w :
  operate a op e pa pe w = Open.operate_body operate a op e pa pe w.
Proof.
  unfold operate at 1. simpl.
  apply operate_body_ext. intros v Hv a' op' pa' pe' w'.
  unfold operate. apply operate_at_stable; lia.
Qed.
End Knot.

(* ================================================================== *)
(** * What a computation appends to [errors] *)

Lemma withErrors_nil w : withErrors w [] = w.
Proof. destruct w. unfold withErrors. simpl. now rewrite app_nil_r. Qed.

Lemma withErrors_cons w e es :
  withErrors (withError w e) es = withErrors w (e :: es).
Proof. unfold withError, withErrors. simpl. now rewrite <- app_assoc. Qed.

Section AppendsOnly.
Variable P : Error -> Prop.

Lemma appendsOnly_silent A (m : M A) :
  (forall w, errors (final (m w)) = errors w) -> appendsOnly P m.
Proof.
  intros H w. exists []. rewrite H, app_nil_r. auto.
Qed.

Lemma appendsOnly_ret A (a : A) : appendsOnly P (ret a).
Proof. now apply appendsOnly_silent. Qed.

Lemma appendsOnly_panic A : appendsOnly P (@panic A).
Proof. now apply appendsOnly_silent. Qed.

Lemma appendsOnly_log_Fatal A : appendsOnly P (@log_Fatal A).
Proof. now apply appendsOnly_silent. Qed.

Lemma appendsOnly_Printf format args : appendsOnly P (Printf format args).
Proof. now apply appendsOnly_silent. Qed.

Lemma appendsOnly_noteRegexCall p s : appendsOnly P (noteRegexCall p s).
Proof. now apply appendsOnly_silent. Qed.

Lemma appendsOnly_TypeOfString v : appendsOnly P (TypeOfString v).
Proof. apply appendsOnly_silent. intros w. unfold TypeOfString. now destruct (typeName v). Qed.

Lemma appendsOnly_asString v : appendsOnly P (asString v).
Proof. apply appendsOnly_silent. intros w. now destruct v. Qed.

Lemma appendsOnly_appendError e : P e -> appendsOnly P (appendError e).
Proof. intros He w. exists [e]. simpl. auto. Qed.

Lemma appendsOnly_bind A B (m : M A) (f : A -> M B) :
  appendsOnly P m -> (forall a, appendsOnly P (f a)) -> appendsOnly P (bind m f).
Proof.
  intros Hm Hf w. unfold bind.
  destruct (Hm w) as [d1 [E1 F1]].
  destruct (m w) as [a w1|w1|w1]; simpl in E1.
  - destruct (Hf a w1) as [d2 [E2 F2]].
    exists (d1 ++ d2)%list. rewrite E2, E1, app_assoc. split; [reflexivity|].
    apply Forall_app; auto.
  - exists d1. auto.
  - exists d1. auto.
Qed.

Lemma appendsOnly_forRange body ks :
  (forall k, appendsOnly P (body k)) -> appendsOnly P (forRange body ks).
Proof.
  intros Hb. induction ks as [|k ks IH]; simpl.
  - apply appendsOnly_ret.
  - apply appendsOnly_bind; auto.
Qed.

Lemma appendsOnly_forRangeWith S (body : string -> S -> M S) ks :
  (forall k s, appendsOnly P (body k s)) ->
  forall s, appendsOnly P (forRangeWith body ks s).
Proof.
  intros Hb. induction ks as [|k ks IH]; intros s; simpl.
  - apply appendsOnly_ret.
  - apply appendsOnly_bind; auto.
Qed.

End AppendsOnly.

Create HintDb appends.
#[local] Hint Resolve appendsOnly_ret appendsOnly_panic appendsOnly_log_Fatal
  appendsOnly_Printf appendsOnly_noteRegexCall appendsOnly_TypeOfString
  appendsOnly_asString : appends.

(** Decompose a computation into the steps above. *)
Ltac appends :=
  repeat first
    [ progress auto with appends
    | apply appendsOnly_bind; [|intro]
    | apply appendsOnly_appendError; solve [left; reflexivity | right; reflexivity]
    | apply appendsOnly_forRangeWith; intros
    | match goal with
      | |- appendsOnly _ (if ?b then _ else _) => destruct b
      | |- appendsOnly _ (match ?v with _ => _ end) =>
          lazymatch v with
          | Open.comparatorFor _ _ _ => fail
          | comparatorFor _ _ => fail
          | _ => destruct v
          end
      | |- appendsOnly _ _ => progress cbv beta zeta
      end ].

Section OperatorErrors.
Context {ext : Collaborators}.

Lemma comparator_appends f ta te c :
  (forall a op e pa pe, appendsOnly operatorError (f a op e pa pe)) ->
  Open.comparatorFor f ta te = Some c ->
  forall a e pa pe inverse, appendsOnly operatorError (c a e pa pe inverse).
Proof.
  intros Hf. unfold Open.comparatorFor, Open.equalityOperators. cbn [lookup].
  destruct (String.eqb "string" ta).
  - cbn [lookup]. destruct (String.eqb "string" te).
    { intros Hc a e pa pe inverse; injection Hc as Hc; subst c. unfold Open.string_string. appends. }
    destruct (String.eqb "map[string]interface {}" te); [|discriminate].
    intros Hc a e pa pe inverse; injection Hc as Hc; subst c. unfold Open.string_map. appends.
  - destruct (String.eqb "json.Number" ta); [|discriminate]. cbn [lookup].
    destruct (String.eqb "string" te).
    { intros Hc a e pa pe inverse; injection Hc as Hc; subst c. unfold Open.number_string. appends. }
    destruct (String.eqb "int" te).
    { intros Hc a e pa pe inverse; injection Hc as Hc; subst c. unfold Open.number_int. appends. }
    destruct (String.eqb "map[string]interface {}" te); [|discriminate].
    intros Hc a e pa pe inverse; injection Hc as Hc; subst c. unfold Open.number_map. appends.
Qed.

Lemma operate_body_appends f :
  (forall a op e pa pe, appendsOnly operatorError (f a op e pa pe)) ->
  forall a op e pa pe, appendsOnly operatorError (Open.operate_body f a op e pa pe).
Proof.
  intros Hf a op e pa pe. unfold Open.operate_body.
  destruct (String.eqb op "$is"); [appends|].
  destruct (String.eqb op "$is_not").
  { unfold Open.executeIsOperator. appends. }
  destruct (String.eqb op "$ne").
  { unfold Open.executeNeOperator. appends.
    match goal with
    | |- appendsOnly _ (match ?c with _ => _ end) => destruct c eqn:E
    end.
    - eapply comparator_appends; eauto.
    - unfold Open.unsupported. appends. }
  destruct (String.eqb op "$regex"); [|appends].
  unfold Open.executeRegexOperator. appends.
Qed.

Lemma operate_at_appends n :
  forall a op e pa pe, appendsOnly operatorError (operate_at n a op e pa pe).
Proof.
  induction n as [|n IH]; simpl; intros.
  - appends.
  - now apply operate_body_appends.
Qed.

Lemma operate_appends a op e pa pe : appendsOnly operatorError (operate a op e pa pe).
Proof. apply operate_at_appends. Qed.

Lemma comparatorFor_appends ta te c :
  comparatorFor ta te = Some c ->
  forall a e pa pe inverse, appendsOnly operatorError (c a e pa pe inverse).
Proof. apply comparator_appends. intros. apply operate_appends. Qed.

Lemma expectedKeyStep_appends actual expected pa pe k :
  has actual (strings.TrimSuffix k "?") = true ->
  appendsOnly operatorError (expectedKeyStep actual expected pa pe k).
Proof.
  intros Hk. unfold expectedKeyStep.
  assert (Hkey : (if strings.HasSuffix k "?"
                  then (strings.TrimSuffix k "?", true) else (k, false))
                 = (strings.TrimSuffix k "?", strings.HasSuffix k "?")).
  { unfold strings.TrimSuffix. now destruct (strings.HasSuffix k "?"). }
  rewrite Hkey. unfold has in Hk.
  destruct (lookup actual (strings.TrimSuffix k "?")) as [v|]; [|discriminate].
  destruct (strings.HasPrefix k "$").
  - apply appendsOnly_bind; [apply operate_appends | intro; appends].
  - appends.
    match goal with
    | |- appendsOnly _ (match ?c with _ => _ end) => destruct c eqn:E
    end.
    + apply appendsOnly_bind; [eapply comparatorFor_appends; eauto | intro; appends].
    + unfold Open.unsupported. appends.
Qed.

End OperatorErrors.

(* ================================================================== *)
(** * The operators *)

Section Operators.
Context {ext : Collaborators}.

Lemma operate_ne a e pa pe w :
  operate a "$ne" e pa pe w = executeNeOperator a e pa pe w.
Proof. rewrite operate_eq. reflexivity. Qed.

Lemma operate_regex a p pa pe w :
  operate a "$regex" (VString p) pa pe w = executeRegexOperator a p pa pe w.
Proof. rewrite operate_eq. reflexivity. Qed.

Lemma operate_is_not a k pa pe w :
  strings.HasPrefix k "$" = true ->
  operate a "$is_not" (VString k) pa pe w
  = executeIsOperator a k pa (pa ++ ".$is_not") true w.
Proof.
  intros Hk. rewrite operate_eq. unfold Open.operate_body. simpl.
  unfold bind, TypeOfString, ret. simpl. rewrite Hk. reflexivity.
Qed.

Lemma executeNe_unsupported a e ta te pa pe w :
  typeName a = Some ta -> typeName e = Some te ->
  comparatorFor ta te = None ->
  executeNeOperator a e pa pe w
  = Return false (withOutput w unsupportedMessage [AStr ta; AStr te]).
Proof.
  intros Ha He Hc.
  unfold executeNeOperator, Open.executeNeOperator, bind, TypeOfString.
  rewrite Ha, He. unfold ret. fold (@comparatorFor ext). rewrite Hc. reflexivity.
Qed.

(** A [nil] operand has no type name: [$ne] panics before it consults the
    comparator table. *)
Lemma ne_nil_operand_panics a pa pe w : operate a "$ne" VNil pa pe w = Panic w.
Proof. rewrite operate_ne. now destruct a. Qed.

(** C1. The claim is that [$is] with operand ["$string"] succeeds exactly on
    a String actual value and reports one diagnostic when it fails.  The
    code does neither: whatever the actual value and the operand, [$is]
    returns [false] and leaves the diagnostics as they were, because its
    [case] has an empty body and does not fall through to the body written
    under [$is_not]. *)
Theorem is_operator_fails_silently operand1 operand2 pa pe w :
  operate operand1 "$is" operand2 pa pe w = Return false w.
Proof. rewrite operate_eq. reflexivity. Qed.

(** [$is_not] with operand ["$string"] does what is claimed of it: on a
    value that has a type, it succeeds with no diagnostic unless the type
    is [string], and then it fails with one. *)
Lemma is_not_string v t pa pe w :
  typeName v = Some t ->
  operate v "$is_not" (VString "$string") pa pe w
  = if String.eqb t "string"
    then Return false
           (withError w (Error_ "Value type matched" pa (pa ++ ".$is_not")
                           "response_error"))
    else Return true w.
Proof.
  intros Hv. rewrite operate_is_not by reflexivity.
  unfold executeIsOperator, Open.executeIsOperator, bind, TypeOfString. rewrite Hv.
  unfold ret. change (strings.TrimPrefix "$string" "$") with "string".
  destruct (String.eqb t "string"); reflexivity.
Qed.


(** X30. [$regex] with a pattern [p], on an actual value that has a type.
    When the type is not [string] it appends exactly one [response_error]
    and does not call the regular-expression library ([regexCalls] is
    unchanged).  On a string it calls the library once: a pattern that
    does not compile gives a [spec_error], a match gives success with no
    diagnostic, and a mismatch gives a [response_error]. *)
Theorem regex_operator v p pa pe w :
  operate v "$regex" (VString p) pa pe w = executeRegexOperator v p pa pe w
  /\ (forall t,
        typeName v = Some t -> String.eqb t "string" = false ->
        executeRegexOperator v p pa pe w
        = Return false
            (withError w (Error_ "Unexpected value type" pa pe "response_error")))
  /\ (forall s,
        v = VString s ->
        executeRegexOperator v p pa pe w
        = match regexp_MatchString p s with
          | None =>
              Return false
                (withError (withRegexCall w p s)
                   (Error_ "Invalid regex pattern" pa pe "spec_error"))
          | Some true => Return true (withRegexCall w p s)
          | Some false =>
              Return false
                (withError (withRegexCall w p s)
                   (Error_ "Regex mismatch" pa pe "response_error"))
          end).
Proof.
  split; [apply operate_regex|]. split.
  - intros t Ht Hne.
    unfold executeRegexOperator, Open.executeRegexOperator, bind, TypeOfString.
    rewrite Ht. unfold ret. rewrite Hne. reflexivity.
  - intros s ->.
    unfold executeRegexOperator, Open.executeRegexOperator, bind. simpl.
    destruct (regexp_MatchString p s) as [[|]|]; reflexivity.
Qed.

(** C10. The table entry for a Number against a string is [number_string],
    whose result and diagnostics do not depend on [inverse]; so [$ne] with
    operand ["$number"] on a Number succeeds and appends nothing, where a
    negated kind check would fail. *)
Theorem number_string_ignores_inverse literal x pa pe w :
  comparatorFor "json.Number" "string" = Some Open.number_string
  /\ (forall inverse,
        Open.number_string (VNumber literal) (VString x) pa pe inverse w
        = Open.number_string (VNumber literal) (VString x) pa pe false w)
  /\ operate (VNumber literal) "$ne" (VString "$number") pa pe w = Return true w.
Proof.
  split; [reflexivity|]. split; [reflexivity|].
  rewrite operate_ne. reflexivity.
Qed.

End Operators.

(* ================================================================== *)
(** * The structural comparator *)

Lemma appendsOnly_weaken A (P Q : Error -> Prop) (m : M A) :
  (forall e, P e -> Q e) -> appendsOnly P m -> appendsOnly Q m.
Proof.
  intros HPQ Hm w. destruct (Hm w) as [added [E F]].
  exists added. split; [assumption|]. eapply Forall_impl; eauto.
Qed.

Lemma filter_none A (p : A -> bool) l :
  Forall (fun x => p x = false) l -> filter p l = [].
Proof.
  induction 1 as [|x l Hx _ IH]; simpl; [reflexivity|]. now rewrite Hx.
Qed.

Lemma filter_all A (p : A -> bool) l :
  Forall (fun x => p x = true) l -> filter p l = l.
Proof.
  induction 1 as [|x l Hx _ IH]; simpl; [reflexivity|]. now rewrite Hx, IH.
Qed.

Lemma operatorError_not_unknown e : operatorError e -> isUnknownKeyError e = false.
Proof. unfold isUnknownKeyError. now intros [-> | ->]. Qed.

Lemma operatorError_not_missing e : operatorError e -> isMissingKeyError e = false.
Proof. unfold isMissingKeyError. now intros [-> | ->]. Qed.

Lemma unknownKeyError_is_unknown pa pe k : isUnknownKeyError (unknownKeyError pa pe k) = true.
Proof. cbn. now destruct k. Qed.

Lemma unknownKeyError_not_missing pa pe k : isMissingKeyError (unknownKeyError pa pe k) = false.
Proof. reflexivity. Qed.

Lemma missingKeyError_is_missing pa pe k : isMissingKeyError (missingKeyError pa pe k) = true.
Proof. cbn. now destruct (strings.TrimSuffix k "?" ++ "'"). Qed.

Lemma missingKeyError_not_unknown pa pe k : isUnknownKeyError (missingKeyError pa pe k) = false.
Proof. reflexivity. Qed.

Lemma stripped_key k :
  (if strings.HasSuffix k "?" then (strings.TrimSuffix k "?", true) else (k, false))
  = (strings.TrimSuffix k "?", strings.HasSuffix k "?").
Proof. unfold strings.TrimSuffix. now destruct (strings.HasSuffix k "?"). Qed.

Section Comparator.
Context {ext : Collaborators}.

Lemma unknownKeyPass expected pa pe ks : forall w,
  forRange (unknownKeyStep expected pa pe) ks w
  = Return tt (withErrors w (map (unknownKeyError pa pe)
                               (filter (unknownKey expected) ks))).
Proof.
  induction ks as [|k ks IH]; intros w; simpl.
  - now rewrite withErrors_nil.
  - unfold bind, unknownKeyStep at 1. fold (unknownKey expected k).
    destruct (unknownKey expected k); simpl.
    + fold (unknownKeyError pa pe k). rewrite IH. now rewrite withErrors_cons.
    + apply IH.
Qed.

Lemma compareObjects_two_passes actual expected pa pe w :
  compareObjects actual expected pa pe w
  = forRange (expectedKeyStep actual expected pa pe) (keys expected)
      (withErrors w (map (unknownKeyError pa pe)
                       (filter (unknownKey expected) (keys actual)))).
Proof. unfold compareObjects, bind. now rewrite unknownKeyPass. Qed.

Lemma expectedKeyStep_missing actual expected pa pe k w :
  lookup actual (strings.TrimSuffix k "?") = None ->
  expectedKeyStep actual expected pa pe k w
  = Return tt (if strings.HasSuffix k "?" then w
               else withError w (missingKeyError pa pe k)).
Proof.
  intros Hk. unfold expectedKeyStep. rewrite stripped_key, Hk.
  now destruct (strings.HasSuffix k "?").
Qed.

Lemma expectedKeyStep_no_unknown actual expected pa pe k :
  appendsOnly (fun e => isUnknownKeyError e = false)
    (expectedKeyStep actual expected pa pe k).
Proof.
  destruct (lookup actual (strings.TrimSuffix k "?")) eqn:Hk.
  - eapply appendsOnly_weaken; [apply operatorError_not_unknown|].
    apply expectedKeyStep_appends. unfold has. now rewrite Hk.
  - intros w. rewrite expectedKeyStep_missing by assumption.
    destruct (strings.HasSuffix k "?"); simpl.
    + exists []. now rewrite app_nil_r.
    + exists [missingKeyError pa pe k]. split; [reflexivity|].
      constructor; [apply missingKeyError_not_unknown | constructor].
Qed.

(** C4. The first loop of [compareObjects] appends, for each key of the
    actual mapping that the expected mapping has neither as it is nor with
    ["?"] appended, one [match_error] "Unknown key" whose actual path is
    the actual prefix followed by ["."] and the key and whose expected path
    is the expected prefix followed by [".$unknown"]; it appends nothing
    for the other keys.  The second loop starts from that state, and
    however the comparison ends, the diagnostics of this kind it has added
    are exactly those. *)
Theorem unknown_keys_reported actual expected pa pe w :
  let reported :=
    map (unknownKeyError pa pe) (filter (unknownKey expected) (keys actual)) in
  compareObjects actual expected pa pe w
  = forRange (expectedKeyStep actual expected pa pe) (keys expected)
      (withErrors w reported)
  /\ filter isUnknownKeyError (errors (final (compareObjects actual expected pa pe w)))
     = (filter isUnknownKeyError (errors w) ++ reported)%list.
Proof.
  intros reported. split; [apply compareObjects_two_passes|].
  rewrite compareObjects_two_passes. fold reported.
  destruct (@appendsOnly_forRange _ _ (keys expected)
              (expectedKeyStep_no_unknown actual expected pa pe)
              (withErrors w reported)) as [added [E F]].
  rewrite E. simpl. rewrite !filter_app, (filter_none _ F), app_nil_r.
  f_equal. apply filter_all. unfold reported.
  apply Forall_forall. intros e He. apply in_map_iff in He.
  destruct He as [k [<- _]]. apply unknownKeyError_is_unknown.
Qed.

Lemma expectedKeyPass_missing actual expected pa pe ks : forall w,
  exists visited rest,
    ks = (visited ++ rest)%list
    /\ (forall u, forRange (expectedKeyStep actual expected pa pe) ks w = Return tt u ->
        rest = [])
    /\ filter isMissingKeyError
         (errors (final (forRange (expectedKeyStep actual expected pa pe) ks w)))
       = (filter isMissingKeyError (errors w)
          ++ map (missingKeyError pa pe) (filter (missingRequired actual) visited))%list.
Proof.
  induction ks as [|k ks IH]; intros w.
  - exists [], []. simpl. now rewrite app_nil_r.
  - simpl. unfold bind.
    destruct (lookup actual (strings.TrimSuffix k "?")) eqn:Hk.
    + assert (Hreq : missingRequired actual k = false).
      { unfold missingRequired, has. now rewrite Hk. }
      destruct (@expectedKeyStep_appends ext actual expected pa pe k) with (w := w)
        as [added [E F]].
      { unfold has. now rewrite Hk. }
      assert (Hadded : filter isMissingKeyError added = []).
      { apply filter_none. eapply Forall_impl; [|exact F].
        apply operatorError_not_missing. }
      destruct (expectedKeyStep actual expected pa pe k w) as [[] w1|w1|w1];
        simpl in E.
      * destruct (IH w1) as [visited [rest [-> [Hret Hf]]]].
        exists (k :: visited), rest. split; [reflexivity|]. split; [exact Hret|].
        rewrite Hf, E, filter_app, Hadded, app_nil_r. simpl. now rewrite Hreq.
      * exists [k], ks. split; [reflexivity|]. split; [discriminate|].
        simpl. rewrite Hreq, E, filter_app, Hadded. reflexivity.
      * exists [k], ks. split; [reflexivity|]. split; [discriminate|].
        simpl. rewrite Hreq, E, filter_app, Hadded. reflexivity.
    + rewrite expectedKeyStep_missing by assumption.
      assert (Hreq : missingRequired actual k = negb (strings.HasSuffix k "?")).
      { unfold missingRequired, has. now rewrite Hk. }
      destruct (IH (if strings.HasSuffix k "?" then w
                    else withError w (missingKeyError pa pe k)))
        as [visited [rest [-> [Hret Hf]]]].
      exists (k :: visited), rest. split; [reflexivity|]. split; [exact Hret|].
      rewrite Hf. cbn [filter]. rewrite Hreq.
      destruct (strings.HasSuffix k "?"); cbn [negb map]; [reflexivity|].
      unfold withError, withErrors. cbn [errors].
      rewrite filter_app. cbn [filter]. rewrite missingKeyError_is_missing.
      now rewrite <- app_assoc.
Qed.

(** X29. For an expected key whose name without the trailing ["?"] is
    absent from the actual mapping, the body of the second loop of
    [compareObjects] appends exactly one [match_error] with actual path
    [prefix ++ ".<" ++ key ++ ">"] when the key has no ["?"], appends
    nothing when it has one, and goes on to the next key.  Over a whole
    comparison, the diagnostics of this kind that were added are exactly
    one per such required key among the keys visited; all keys are visited
    when the comparison returns, and a panic ends the visit. *)
Theorem missing_keys_reported actual expected pa pe w :
  (forall expectedKey,
     lookup actual (strings.TrimSuffix expectedKey "?") = None ->
     expectedKeyStep actual expected pa pe expectedKey w
     = Return tt (if strings.HasSuffix expectedKey "?" then w
                  else withError w (missingKeyError pa pe expectedKey)))
  /\ exists visited rest,
       keys expected = (visited ++ rest)%list
       /\ (forall u, compareObjects actual expected pa pe w = Return tt u -> rest = [])
       /\ filter isMissingKeyError
            (errors (final (compareObjects actual expected pa pe w)))
          = (filter isMissingKeyError (errors w)
             ++ map (missingKeyError pa pe)
                  (filter (missingRequired actual) visited))%list.
Proof.
  split; [intros k; apply expectedKeyStep_missing|].
  rewrite compareObjects_two_passes.
  destruct (expectedKeyPass_missing actual expected pa pe (keys expected)
              (withErrors w (map (unknownKeyError pa pe)
                               (filter (unknownKey expected) (keys actual)))))
    as [visited [rest [Hks [Hret Hf]]]].
  exists visited, rest. split; [exact Hks|]. split; [exact Hret|].
  rewrite Hf. f_equal. simpl. rewrite filter_app.
  rewrite (@filter_none _ isMissingKeyError (map _ _)); [now rewrite app_nil_r|].
  apply Forall_forall. intros e He. apply in_map_iff in He.
  destruct He as [k [<- _]]. apply unknownKeyError_not_missing.
Qed.

(** C5, as amended.  When the values have types and the table has no
    comparator for the pair, [$ne] returns [false] and the structural
    comparator moves on; each writes one line to the standard output
    naming the two types and appends no diagnostic. *)
Theorem unsupported_pair_is_printed a e ta te pa pe w :
  typeName a = Some ta -> typeName e = Some te ->
  comparatorFor ta te = None ->
  operate a "$ne" e pa pe w
  = Return false (withOutput w unsupportedMessage [AStr ta; AStr te])
  /\ forall actual expected expectedKey,
       lookup actual (strings.TrimSuffix expectedKey "?") = Some a ->
       index expected expectedKey = e ->
       strings.HasPrefix expectedKey "$" = false ->
       expectedKeyStep actual expected pa pe expectedKey w
       = Return tt (withOutput w unsupportedMessage [AStr ta; AStr te]).
Proof.
  intros Ha He Hc. split.
  - rewrite operate_ne. now apply executeNe_unsupported.
  - intros actual expected k Hk Hi Hp.
    unfold expectedKeyStep. rewrite stripped_key, Hk, Hp, Hi.
    unfold bind, TypeOfString. rewrite Ha, He. unfold ret. now rewrite Hc.
Qed.

(** A [nil] actual value under an ordinary key has no type name: the
    comparison panics there. *)
Lemma nil_actual_panics actual expected pa pe k w :
  lookup actual (strings.TrimSuffix k "?") = Some VNil ->
  strings.HasPrefix k "$" = false ->
  expectedKeyStep actual expected pa pe k w = Panic w.
Proof.
  intros Hk Hp. unfold expectedKeyStep. now rewrite stripped_key, Hk, Hp.
Qed.

(** C7. The claim is that [$regex] on an actual value that is not of
    String kind appends exactly one [response_error].  A [nil] actual
    value is not a string, yet [$regex] panics on it before it appends
    anything: [executeRegexOperator] starts with
    [reflect.TypeOf(actualValue0).String()].  The operator reaches a [nil]
    when the pattern has the key [$regex] and the response has [null]
    under that key. *)
Theorem regex_on_nil_panics p pa pe w :
  operate VNil "$regex" (VString p) pa pe w = Panic w
  /\ compareObjects [("$regex", VNil)] [("$regex", VString p)]
       "$root" "$root.out" w
     = Panic w.
Proof. split; reflexivity. Qed.

(** C3. The claim is that every expected key that is required and absent
    from the response gets exactly one [match_error].  A [nil] in the
    response under another expected key makes the comparison panic at that
    key, since [reflect.TypeOf(nil).String()] is a nil dereference.  When
    that key is visited first, the absent required key is never reached
    and gets no diagnostic; when it is visited last, the diagnostic is
    appended and the comparison panics all the same. *)
Theorem missing_key_lost_after_nil :
  compareObjects
    [("a", VNil)] [("a", VString "$string"); ("b", VString "$string")]
    "$root" "$root.out" world0
  = Panic world0
  /\ compareObjects
       [("a", VNil)] [("b", VString "$string"); ("a", VString "$string")]
       "$root" "$root.out" world0
     = Panic (withError world0
                (Error_ "Cannot find required key 'b'" "$root.<b>" "$root.out.b"
                   "match_error")).
Proof. split; reflexivity. Qed.

(** C2. The claim is that a comparison in which every expected key is
    present with a matching value appends no diagnostic.  The actual value
    [6] satisfies [{$ne: 5}], yet the comparison appends "Values are not
    equal": the comparator of a Number against an [int] ignores
    [inverse]. *)
Theorem ne_on_number_reports_inequality :
  compareObjects [("id", VNumber "6")] [("id", VMap [("$ne", VInt 5)])]
    "$root" "$root.out" world0
  = Return tt
      (withError world0 (Error_ "Values are not equal" "" "" "response_error")).
Proof. reflexivity. Qed.

(** C8. The claim is that every diagnostic carries two paths that start
    at [$root].  An operator applied to a Number is evaluated with both
    paths empty, so the diagnostic below has none. *)
Theorem operator_under_number_loses_paths :
  compareObjects [("id", VNumber "1")] [("id", VMap [("$regex", VString "^M")])]
    "$root" "$root.out" world0
  = Return tt
      (withError world0 (Error_ "Unexpected value type" "" "" "response_error")).
Proof. reflexivity. Qed.

End Comparator.

(* ================================================================== *)
(** * Success leaves no diagnostic *)

(** Case analysis on every branch of a computation that returns a boolean. *)
Ltac silent_step :=
  unfold bind, ret, panic, appendError, Printf, TypeOfString, asString,
    noteRegexCall, negb, andb, orb;
  cbv beta iota zeta.

Ltac silent :=
  intros w u; silent_step;
  repeat (match goal with
          | |- context [match ?x with _ => _ end] =>
              lazymatch x with
              | context [match _ with _ => _ end] => fail
              | _ => destruct x
              end
          end; silent_step);
  intros H; try discriminate H; injection H as <-; reflexivity.

Section Silent.
Context {ext : Collaborators}.

Lemma forRangeWith_true (body : string -> bool -> M bool) ks :
  (forall k s w u, body k s w = Return true u -> s = true /\ errors u = errors w) ->
  forall s w u,
    forRangeWith body ks s w = Return true u -> s = true /\ errors u = errors w.
Proof.
  intros Hb. induction ks as [|k ks IH]; intros s w u; simpl.
  - unfold ret. intros [= -> ->]. auto.
  - unfold bind. destruct (body k s w) as [s' w'|w'|w'] eqn:E; try discriminate.
    intros H. destruct (IH _ _ _ H) as [-> Hu].
    destruct (Hb _ _ _ _ E) as [-> Hw]. split; congruence.
Qed.

Lemma comparator_silent f ta te c :
  (forall a op e pa pe, silentWhenTrue (f a op e pa pe)) ->
  Open.comparatorFor f ta te = Some c ->
  forall a e pa pe inverse, silentWhenTrue (c a e pa pe inverse).
Proof.
  intros Hf. unfold Open.comparatorFor, Open.equalityOperators. cbn [lookup].
  destruct (String.eqb "string" ta).
  - cbn [lookup]. destruct (String.eqb "string" te).
    { intros Hc a e pa pe inverse; injection Hc as Hc; subst c.
      unfold Open.string_string. silent. }
    destruct (String.eqb "map[string]interface {}" te); [|discriminate].
    intros Hc a e pa pe inverse; injection Hc as Hc; subst c.
    unfold Open.string_map. destruct a; try silent. destruct e; try silent.
    intros w u H. eapply forRangeWith_true; [|exact H].
    clear w u H. intros k r. cbv beta zeta.
    destruct (strings.HasPrefix k "$"); [|silent].
    destruct r; [|silent]. intros w u H. split; [reflexivity|]. eapply Hf; eauto.
  - destruct (String.eqb "json.Number" ta); [|discriminate]. cbn [lookup].
    destruct (String.eqb "string" te).
    { intros Hc a e pa pe inverse; injection Hc as Hc; subst c.
      unfold Open.number_string. silent. }
    destruct (String.eqb "int" te).
    { intros Hc a e pa pe inverse; injection Hc as Hc; subst c.
      unfold Open.number_int. silent. }
    destruct (String.eqb "map[string]interface {}" te); [|discriminate].
    intros Hc a e pa pe inverse; injection Hc as Hc; subst c.
    unfold Open.number_map. destruct a; try silent. destruct e; try silent.
    intros w u H. eapply forRangeWith_true; [|exact H].
    clear w u H. intros k r. cbv beta zeta.
    destruct (strings.HasPrefix k "$"); [|silent].
    destruct r; [|silent]. intros w u H. split; [reflexivity|]. eapply Hf; eauto.
Qed.

Lemma operate_body_silent f :
  (forall a op e pa pe, silentWhenTrue (f a op e pa pe)) ->
  forall a op e pa pe, silentWhenTrue (Open.operate_body f a op e pa pe).
Proof.
  intros Hf a op e pa pe. unfold Open.operate_body.
  destruct (String.eqb op "$is"); [silent|].
  destruct (String.eqb op "$is_not").
  { unfold Open.executeIsOperator. silent. }
  destruct (String.eqb op "$ne").
  { unfold Open.executeNeOperator, Open.unsupported, Printf.
    intros w u. unfold bind, TypeOfString.
    destruct (typeName a) as [ta|]; [|discriminate].
    destruct (typeName e) as [te|]; [|discriminate]. unfold ret.
    destruct (Open.comparatorFor f ta te) eqn:E; [|discriminate].
    eapply comparator_silent; eauto. }
  destruct (String.eqb op "$regex"); [|silent].
  unfold Open.executeRegexOperator. silent.
Qed.

Lemma operate_at_silent n :
  forall a op e pa pe, silentWhenTrue (operate_at n a op e pa pe).
Proof.
  induction n as [|n IH]; simpl; intros.
  - silent.
  - now apply operate_body_silent.
Qed.

(** An operator that returns [true] has appended no diagnostic. *)
Lemma operate_silent a op e pa pe : silentWhenTrue (operate a op e pa pe).
Proof. apply operate_at_silent. Qed.

(** A comparator of the table that returns [true] has appended no
    diagnostic. *)
Lemma comparatorFor_silent ta te c :
  comparatorFor ta te = Some c ->
  forall a e pa pe inverse, silentWhenTrue (c a e pa pe inverse).
Proof. apply comparator_silent. intros. apply operate_silent. Qed.

Lemma expectedKeyStep_accepted actual expected pa pe k w :
  accepted actual expected pa pe k ->
  exists u, expectedKeyStep actual expected pa pe k w = Return tt u
            /\ errors u = errors w.
Proof.
  intros (v & ta & te & c & Hv & Hp & Ha & He & Hc & Hrun).
  destruct (Hrun w) as [u Hu]. exists u. split.
  - unfold expectedKeyStep. rewrite stripped_key, Hv, Hp.
    unfold bind, TypeOfString. rewrite Ha, He. unfold ret. now rewrite Hc, Hu.
  - eapply comparatorFor_silent; eauto.
Qed.

Lemma expectedKeyPass_accepted actual expected pa pe ks :
  (forall k, List.In k ks -> accepted actual expected pa pe k) ->
  forall w, exists u,
    forRange (expectedKeyStep actual expected pa pe) ks w = Return tt u
    /\ errors u = errors w.
Proof.
  induction ks as [|k ks IH]; intros Hks w; simpl.
  - exists w. auto.
  - destruct (@expectedKeyStep_accepted actual expected pa pe k w) as [u1 [E1 H1]].
    { apply Hks. now left. }
    destruct (IH (fun k' Hk' => Hks k' (or_intror Hk')) u1) as [u [E H]].
    exists u. unfold bind. rewrite E1. split; [exact E | congruence].
Qed.

(** X23. When the actual mapping has no unknown key and, for every
    expected key, the comparator registered for the two values returns
    [true], the comparison returns and appends no diagnostic. *)
Lemma compareObjects_accepted actual expected pa pe w :
  (forall k, List.In k (keys actual) -> unknownKey expected k = false) ->
  (forall k, List.In k (keys expected) -> accepted actual expected pa pe k) ->
  exists u, compareObjects actual expected pa pe w = Return tt u
            /\ errors u = errors w.
Proof.
  intros Hunknown Haccepted. rewrite compareObjects_two_passes.
  replace (filter (unknownKey expected) (keys actual)) with (@nil string).
  - simpl. rewrite withErrors_nil. now apply expectedKeyPass_accepted.
  - symmetry. apply filter_none. now apply Forall_forall.
Qed.

(** The example of the specification: an identifier, a name matched by a
    regular expression and an optional tag that is absent. *)
Example everest_matches :
  regexp_MatchString "^M" "Mountain" = Some true ->
  compareObjects
    [("id", VNumber "1"); ("name", VString "Mountain")]
    [("id", VString "$number"); ("name", VMap [("$regex", VString "^M")]);
     ("tag?", VString "$string")]
    "$root" "$root.out" world0
  = Return tt (withRegexCall world0 "^M" "Mountain").
Proof.
  intros Hm. cbv -[regexp_MatchString]. rewrite Hm. reflexivity.
Qed.

(** The same pattern against a response whose identifier is a string and
    which has one more key: one diagnostic for each. *)
Example everest_mismatches :
  regexp_MatchString "^M" "Mountain" = Some true ->
  compareObjects
    [("id", VString "1"); ("name", VString "Mountain"); ("extra", VBool true)]
    [("id", VString "$number"); ("name", VMap [("$regex", VString "^M")]);
     ("tag?", VString "$string")]
    "$root" "$root.out" world0
  = Return tt
      (withRegexCall
         (withErrors world0
            [ Error_ "Unknown key extra" "$root.extra" "$root.out.$unknown"
                "match_error";
              Error_ "Unexpected value type" "$root.id" "$root.out.id:$number"
                "response_error" ])
         "^M" "Mountain").
Proof.
  intros Hm. cbv -[regexp_MatchString]. rewrite Hm. reflexivity.
Qed.

End Silent.

(* ================================================================== *)
(** * The placeholder resolver *)

Section Resolver.
Context {ext : Collaborators}.

Lemma Index_found_nonempty value :
  (0 <= strings.Index value "{{")%Z -> (0 <? strings.len value)%Z = true.
Proof.
  destruct value as [|c rest].
  - intros H. exfalso. apply H. reflexivity.
  - intros _. unfold strings.len. cbn [String.length]. apply Z.ltb_lt. lia.
Qed.

(** C9, as amended.  When the first ["{{"] of the target is followed by a
    ["}}"] and the path query between them is not found, [refer] ends the
    process with [log.Fatal] after one iteration: no diagnostic is
    recorded, and the run over the entries stops at that entry. *)
Theorem unresolved_placeholder_ends_the_run value context fuel w :
  let startIndex := strings.Index value "{{" in
  let stopIndex := strings.Index value "}}" in
  let snippet :=
    strings_TrimSpace (strings.slice value (startIndex + 2) stopIndex) in
  let w' := withOutput w "%v %v" [AStr snippet; AVal (VMap context)] in
  (0 <= startIndex)%Z ->
  (startIndex + 2 <= stopIndex)%Z ->
  jsonpath_Read context ("$." ++ snippet) = None ->
  refer (S fuel) value context w = Some (Exit w')
  /\ forall entry entries testCase,
       readConf (longName entry) = Some testCase ->
       Target testCase = value ->
       String.eqb (strings_TrimSpace value) "" = false ->
       processEntries (S fuel) (entry :: entries) context w = Some (Exit w').
Proof.
  intros startIndex stopIndex snippet w' Hs He Hj.
  assert (Hrefer : refer (S fuel) value context w = Some (Exit w')).
  { unfold refer. cbn [refer_loop].
    rewrite (Index_found_nonempty value Hs).
    unfold refer_body. fold startIndex. fold stopIndex.
    replace (startIndex >=? 0)%Z with true by (symmetry; apply Z.geb_le; lia).
    replace (stopIndex >=? startIndex + 2)%Z with true
      by (symmetry; apply Z.geb_le; lia).
    fold snippet. unfold bind, Printf. rewrite Hj. reflexivity. }
  split; [exact Hrefer|].
  intros entry entries testCase Hconf Htarget Hblank.
  cbn [processEntries]. unfold processEntry.
  rewrite Hconf, Htarget, Hblank, Hrefer. reflexivity.
Qed.



End Resolver.



(* ================================================================== *)
(** * The statements on concrete inputs *)

Lemma missing_keys_reported_witness :
  lookup [("id", VNumber "1")] (strings.TrimSuffix "name" "?") = None
  /\ expectedKeyStep (ext := Demo.env)
       [("id", VNumber "1")]
       [("id", VString "$number"); ("name", VString "$string")]
       "$root" "$root.out" "name" world0
     = Return tt
         (withError world0
            (Error_ "Cannot find required key 'name'" "$root.<name>"
               "$root.out.name" "match_error")).
Proof.
  split; [reflexivity|].
  exact (proj1 (@missing_keys_reported Demo.env
                  [("id", VNumber "1")]
                  [("id", VString "$number"); ("name", VString "$string")]
                  "$root" "$root.out" world0)
               "name" eq_refl).
Defined.

Lemma unsupported_pair_is_printed_witness :
  typeName (VBool true) = Some "bool"
  /\ typeName (VBool false) = Some "bool"
  /\ comparatorFor (ext := Demo.env) "bool" "bool" = None
  /\ operate (ext := Demo.env) (VBool true) "$ne" (VBool false)
       "$root.ok" "$root.out.ok" world0
     = Return false (withOutput world0 unsupportedMessage [AStr "bool"; AStr "bool"]).
Proof.
  split; [reflexivity|]. split; [reflexivity|]. split; [reflexivity|].
  exact (proj1 (@unsupported_pair_is_printed Demo.env (VBool true) (VBool false)
                  "bool" "bool" "$root.ok" "$root.out.ok" world0
                  eq_refl eq_refl eq_refl)).
Defined.

(** C5, as stated, fails here: neither [$ne] nor the comparator appends a
    diagnostic for the pair of a [bool] and a [bool]. *)
Lemma unsupported_pair_appends_no_diagnostic :
  ~ (exists e,
       errors (final (operate (ext := Demo.env) (VBool true) "$ne" (VBool false)
                        "$root.ok" "$root.out.ok" world0)) = [e])
  /\ ~ (exists e,
          errors (final (compareObjects (ext := Demo.env)
                           [("ok", VBool true)] [("ok", VBool false)]
                           "$root" "$root.out" world0)) = [e]).
Proof. split; intros [e He]; vm_compute in He; discriminate. Qed.


Lemma regex_operator_witness :
  executeRegexOperator (ext := Demo.env) (VNumber "42") "Mount"
    "$root.name" "$root.out.name.$regex" world0
  = Return false
      (withError world0
         (Error_ "Unexpected value type" "$root.name" "$root.out.name.$regex"
            "response_error"))
  /\ executeRegexOperator (ext := Demo.env) (VString "Mount Everest") "Mount"
       "$root.name" "$root.out.name.$regex" world0
     = Return true (withRegexCall world0 "Mount" "Mount Everest")
  /\ executeRegexOperator (ext := Demo.env) (VString "Mount Everest") "("
       "$root.name" "$root.out.name.$regex" world0
     = Return false
         (withError (withRegexCall world0 "(" "Mount Everest")
            (Error_ "Invalid regex pattern" "$root.name" "$root.out.name.$regex"
               "spec_error")).
Proof.
  split; [|split].
  - exact (proj1 (proj2 (@regex_operator Demo.env (VNumber "42") "Mount"
                           "$root.name" "$root.out.name.$regex" world0))
                 "json.Number" eq_refl eq_refl).
  - exact (proj2 (proj2 (@regex_operator Demo.env (VString "Mount Everest") "Mount"
                           "$root.name" "$root.out.name.$regex" world0))
                 "Mount Everest" eq_refl).
  - exact (proj2 (proj2 (@regex_operator Demo.env (VString "Mount Everest") "("
                           "$root.name" "$root.out.name.$regex" world0))
                 "Mount Everest" eq_refl).
Defined.

Lemma unresolved_placeholder_ends_the_run_witness :
  (0 <= strings.Index "GET {{vars.host}}/mountains/1" "{{")%Z
  /\ (strings.Index "GET {{vars.host}}/mountains/1" "{{" + 2
      <= strings.Index "GET {{vars.host}}/mountains/1" "}}")%Z
  /\ jsonpath_Read (Collaborators := Demo.env) [] "$.vars.host" = None
  /\ refer (ext := Demo.env) 1 "GET {{vars.host}}/mountains/1" [] world0
     = Some (Exit (withOutput world0 "%v %v" [AStr "vars.host"; AVal (VMap [])])).
Proof.
  assert (Hs : (0 <= strings.Index "GET {{vars.host}}/mountains/1" "{{")%Z)
    by (vm_compute; discriminate).
  assert (He : (strings.Index "GET {{vars.host}}/mountains/1" "{{" + 2
                <= strings.Index "GET {{vars.host}}/mountains/1" "}}")%Z)
    by (vm_compute; discriminate).
  split; [exact Hs|]. split; [exact He|]. split; [reflexivity|].
  exact (proj1 (@unresolved_placeholder_ends_the_run Demo.env
                  "GET {{vars.host}}/mountains/1" [] 0 world0 Hs He eq_refl)).
Defined.

(** C9, as stated, fails here: the first entry has a placeholder that the
    context cannot resolve, and the run ends there with no diagnostic
    recorded; the second entry, which on its own records a diagnostic, is
    never processed. *)
Lemma unresolved_placeholder_records_nothing :
  processEntries (ext := Demo.envWith Demo.files []) 5 Demo.entries [] world0
  = Some (Exit (withOutput world0 "%v %v" [AStr "vars.host"; AVal (VMap [])]))
  /\ processEntries (ext := Demo.envWith Demo.files []) 5 (tl Demo.entries) []
       world0
     = Some (Return tt
               (withError world0
                  (mkError "Target expected" "" "$root.target" "spec_error"
                     (mkEntry "./b.yaml" "./b.yaml")))).
Proof. split; reflexivity. Qed.

(* ================================================================== *)
(** * More on the operators *)

Section MoreOperators.
Context {ext : Collaborators}.

(** X1. [$is_not] with an operand that starts with the sigil, on a value
    that has a type: it fails exactly when the type name of the value is
    the operand without its sigil, and then appends one [response_error]
    whose expected path is the actual path followed by [.$is_not];
    otherwise it succeeds and appends nothing. *)
Theorem is_not_operator v t k pa pe w :
  typeName v = Some t ->
  strings.HasPrefix k "$" = true ->
  operate v "$is_not" (VString k) pa pe w
  = if String.eqb t (strings.TrimPrefix k "$")
    then Return false
           (withError w (Error_ "Value type matched" pa (pa ++ ".$is_not")
                           "response_error"))
    else Return true w.
Proof.
  intros Hv Hk. rewrite operate_is_not by assumption.
  unfold executeIsOperator, Open.executeIsOperator, bind, TypeOfString.
  rewrite Hv. unfold ret.
  destruct (String.eqb t (strings.TrimPrefix k "$")); reflexivity.
Qed.

Lemma typeName_cases v t :
  typeName v = Some t ->
  List.In t ["bool"; "int"; "float64"; "json.Number"; "string";
             "[]interface {}"; "map[string]interface {}"].
Proof.
  destruct v; simpl; intros [= <-]; auto 10.
Qed.

(** X2. When the operand without its sigil is none of the seven type
    names a decoded value can have, [$is_not] succeeds on every value that
    has a type and appends nothing: [$is_not: $number] never fails, since
    the type name of a number is [json.Number]. *)
Theorem is_not_unknown_kind_always_passes v t k pa pe w :
  typeName v = Some t ->
  strings.HasPrefix k "$" = true ->
  existsb (String.eqb (strings.TrimPrefix k "$"))
    ["bool"; "int"; "float64"; "json.Number"; "string";
     "[]interface {}"; "map[string]interface {}"] = false ->
  operate v "$is_not" (VString k) pa pe w = Return true w.
Proof.
  intros Hv Hk Hnone. rewrite operate_is_not by assumption.
  unfold executeIsOperator, Open.executeIsOperator, bind, TypeOfString.
  rewrite Hv. unfold ret.
  destruct (String.eqb_spec t (strings.TrimPrefix k "$")) as [E|]; [|reflexivity].
  exfalso. apply typeName_cases in Hv. rewrite E in Hv.
  assert (H : existsb (String.eqb (strings.TrimPrefix k "$"))
                ["bool"; "int"; "float64"; "json.Number"; "string";
                 "[]interface {}"; "map[string]interface {}"] = true).
  { apply existsb_exists. eexists. split; [exact Hv | apply String.eqb_refl]. }
  congruence.
Qed.

(** X3. [$is_not] with an operand that has a type but is not a string
    starting with the sigil appends one [spec_error] at the paths it was
    given and fails, whatever the actual value. *)
Theorem is_not_rejects_operand v operand t pa pe w :
  typeName operand = Some t ->
  match operand with
  | VString k => strings.HasPrefix k "$"
  | _ => false
  end = false ->
  operate v "$is_not" operand pa pe w
  = Return false
      (withError w (Error_ "$is_not operator expects type name" pa pe "spec_error")).
Proof.
  intros Ht Hk. rewrite operate_eq.
  destruct operand; try discriminate Ht; try reflexivity.
  unfold Open.operate_body. simpl. unfold bind, TypeOfString, ret. simpl.
  rewrite Hk. reflexivity.
Qed.

(** X4. [$regex] with an operand whose type is not [string] appends one
    [spec_error] and fails, whatever the actual value, [nil] included; the
    regular-expression library is not called. *)
Theorem regex_rejects_operand v operand t pa pe w :
  typeName operand = Some t ->
  String.eqb t "string" = false ->
  operate v "$regex" operand pa pe w
  = Return false
      (withError w (Error_ "$regex operator expects regex pattern" pa pe
                      "spec_error")).
Proof.
  intros Ht Hs. rewrite operate_eq.
  destruct operand; try discriminate Ht; try reflexivity.
  injection Ht as <-. discriminate Hs.
Qed.

(** X5. An operator that is none of [$is], [$is_not], [$ne] and [$regex]
    fails and leaves the state as it was: no diagnostic tells that the
    name is unknown. *)
Theorem unknown_operator_fails_silently v operator operand pa pe w :
  existsb (String.eqb operator) ["$is"; "$is_not"; "$ne"; "$regex"] = false ->
  operate v operator operand pa pe w = Return false w.
Proof.
  intros H. rewrite operate_eq. unfold Open.operate_body.
  cbn [existsb] in H. rewrite !orb_false_iff in H.
  destruct H as (H1 & H2 & H3 & H4 & _).
  now rewrite H1, H2, H3, H4.
Qed.

End MoreOperators.

(* ================================================================== *)
(** * Fields of the response against fields of the pattern *)

Section Fields.
Context {ext : Collaborators}.

Lemma expectedKeyStep_compares actual expected pa pe key a ta te c w :
  lookup actual (strings.TrimSuffix key "?") = Some a ->
  strings.HasPrefix key "$" = false ->
  typeName a = Some ta ->
  typeName (index expected key) = Some te ->
  comparatorFor ta te = Some c ->
  expectedKeyStep actual expected pa pe key w
  = (c a (index expected key) (pa ++ "." ++ strings.TrimSuffix key "?")
       (pe ++ "." ++ key) false ;;; ret tt) w.
Proof.
  intros Ha Hp Hta Hte Hc. unfold expectedKeyStep.
  rewrite stripped_key, Ha, Hp. unfold bind at 1 2, TypeOfString.
  rewrite Hta, Hte. unfold ret at 1 2. now rewrite Hc.
Qed.

(** X6. A string in the response against a string in the pattern, under
    an ordinary key.  The pattern [$string] accepts every string; any other
    pattern that starts with the sigil appends one [response_error] whose
    expected path ends with [:] and the pattern; a pattern without sigil
    appends nothing when the two strings are equal and one
    [response_error] otherwise.  The comparison always goes on. *)
Theorem string_field actual expected pa pe key a e w :
  lookup actual (strings.TrimSuffix key "?") = Some (VString a) ->
  index expected key = VString e ->
  strings.HasPrefix key "$" = false ->
  let actualPath := pa ++ "." ++ strings.TrimSuffix key "?" in
  let expectedPath := pe ++ "." ++ key in
  expectedKeyStep actual expected pa pe key w
  = Return tt
      (if strings.HasPrefix e "$" then
         if String.eqb e "$string" then w
         else withError w (Error_ "Unexpected value type" actualPath
                             (expectedPath ++ ":" ++ e) "response_error")
       else
         if String.eqb a e then w
         else withError w (Error_ "Values are not equal" actualPath expectedPath
                             "response_error")).
Proof.
  intros Ha He Hp actualPath expectedPath.
  rewrite (@expectedKeyStep_compares actual expected pa pe key (VString a)
             "string" "string" Open.string_string w Ha Hp eq_refl);
    [|now rewrite He|reflexivity].
  rewrite He. unfold bind, Open.string_string. cbn [negb andb].
  destruct (strings.HasPrefix e "$").
  - destruct (String.eqb e "$string"); reflexivity.
  - destruct (String.eqb a e); reflexivity.
Qed.

(** X7. A number in the response against an [int] in the pattern: no
    diagnostic exactly when the literal of the number parses as a 64-bit
    decimal integer equal to the pattern; one [response_error] otherwise,
    also when the literal denotes the same number in another notation. *)
Theorem number_field_against_int actual expected pa pe key literal n w :
  lookup actual (strings.TrimSuffix key "?") = Some (VNumber literal) ->
  index expected key = VInt n ->
  strings.HasPrefix key "$" = false ->
  expectedKeyStep actual expected pa pe key w
  = Return tt
      (match strconv.ParseInt literal with
       | Some m =>
           if (m =? n)%Z then w
           else withError w (Error_ "Values are not equal"
                               (pa ++ "." ++ strings.TrimSuffix key "?")
                               (pe ++ "." ++ key) "response_error")
       | None =>
           withError w (Error_ "Values are not equal"
                          (pa ++ "." ++ strings.TrimSuffix key "?")
                          (pe ++ "." ++ key) "response_error")
       end).
Proof.
  intros Ha He Hp.
  rewrite (@expectedKeyStep_compares actual expected pa pe key (VNumber literal)
             "json.Number" "int" Open.number_int w Ha Hp eq_refl);
    [|now rewrite He|reflexivity].
  rewrite He. unfold bind, Open.number_int.
  destruct (strconv.ParseInt literal) as [m|]; [|reflexivity].
  destruct (m =? n)%Z; reflexivity.
Qed.

(** X8. A number in the response against a string in the pattern: only
    the pattern [$number] is accepted.  Every other pattern appends one
    [response_error], also the pattern that spells the number. *)
Theorem number_field_against_string actual expected pa pe key literal e w :
  lookup actual (strings.TrimSuffix key "?") = Some (VNumber literal) ->
  index expected key = VString e ->
  strings.HasPrefix key "$" = false ->
  expectedKeyStep actual expected pa pe key w
  = Return tt
      (if String.eqb e "$number" then w
       else if strings.HasPrefix e "$" then
         withError w (Error_ "Unexpected value type"
                        (pa ++ "." ++ strings.TrimSuffix key "?")
                        ((pe ++ "." ++ key) ++ ":" ++ e) "response_error")
       else
         withError w (Error_ "Values are not equal"
                        (pa ++ "." ++ strings.TrimSuffix key "?")
                        (pe ++ "." ++ key) "response_error")).
Proof.
  intros Ha He Hp.
  rewrite (@expectedKeyStep_compares actual expected pa pe key (VNumber literal)
             "json.Number" "string" Open.number_string w Ha Hp eq_refl);
    [|now rewrite He|reflexivity].
  rewrite He. unfold bind, Open.number_string.
  destruct (String.eqb_spec e "$number") as [->|Hne]; [reflexivity|].
  destruct (strings.HasPrefix e "$"); reflexivity.
Qed.

Lemma mixing_loop (operateOn : string -> M bool) (report : string -> Error) ks :
  forallb (fun k => negb (strings.HasPrefix k "$")) ks = true ->
  forall (r : bool) w,
    forRangeWith
      (fun k (result : bool) =>
         if strings.HasPrefix k "$" then
           if result then operateOn k else ret false
         else appendError (report k) ;;; ret false)
      ks r w
    = Return (match ks with [] => r | _ => false end)
        (withErrors w (map report ks)).
Proof.
  induction ks as [|k ks IH]; intros Hks r w.
  - simpl. now rewrite withErrors_nil.
  - cbn [forallb] in Hks. apply andb_true_iff in Hks. destruct Hks as [Hk Hks].
    apply negb_true_iff in Hk. cbn [forRangeWith]. unfold bind at 1.
    rewrite Hk. unfold bind at 1, appendError at 1, ret at 1.
    rewrite (IH Hks). cbn [map]. rewrite withErrors_cons.
    now destruct ks.
Qed.

(** X9. A mapping without any operator key, expected where the response
    has a string or a number: the comparator appends one [spec_error] per
    key, in the order of the keys, and fails; the empty mapping succeeds
    with no diagnostic.  Under a string the diagnostic carries the two
    paths; under a number its expected path is the key alone. *)
Theorem fields_under_a_scalar fields pa pe inverse w :
  forallb (fun k => negb (strings.HasPrefix k "$")) (keys fields) = true ->
  (forall a,
     Open.string_map operate (VString a) (VMap fields) pa pe inverse w
     = Return (match fields with [] => true | _ => false end)
         (withErrors w
            (map (fun _ => Error_ "Cannot mix operators and fields" pa pe
                              "spec_error")
                 (keys fields))))
  /\ (forall literal,
        Open.number_map operate (VNumber literal) (VMap fields) pa pe inverse w
        = Return (match fields with [] => true | _ => false end)
            (withErrors w
               (map (fun k => Error_ "Cannot mix operators and fields" pa k
                                 "spec_error")
                    (keys fields)))).
Proof.
  intros Hks. split; intros x.
  - unfold Open.string_map.
    rewrite (mixing_loop
               (fun k => operate (VString x) k (index fields k) pa (pe ++ "." ++ k))
               (fun _ => Error_ "Cannot mix operators and fields" pa pe "spec_error")
               (keys fields) Hks).
    now destruct fields.
  - unfold Open.number_map.
    rewrite (mixing_loop
               (fun k => operate (VNumber x) k (index fields k) "" "")
               (fun k => Error_ "Cannot mix operators and fields" pa k "spec_error")
               (keys fields) Hks).
    now destruct fields.
Qed.

Lemma skipping_loop (operateOn : string -> M bool) (report : string -> Error) ks :
  forallb (fun k => strings.HasPrefix k "$") ks = true ->
  forall w,
    forRangeWith
      (fun k (result : bool) =>
         if strings.HasPrefix k "$" then
           if result then operateOn k else ret false
         else appendError (report k) ;;; ret false)
      ks false w
    = Return false w.
Proof.
  induction ks as [|k ks IH]; intros Hks w; [reflexivity|].
  cbn [forallb] in Hks. apply andb_true_iff in Hks. destruct Hks as [Hk Hks].
  cbn [forRangeWith]. unfold bind at 1. rewrite Hk. unfold ret at 1.
  now apply IH.
Qed.

(** X10. Several operators in one mapping are evaluated until one
    fails: when the operator visited first returns [false] and the other
    keys are operators too, the comparator returns [false] in the state the
    first operator left, without evaluating the others. *)
Theorem operators_stop_at_first_failure a k v rest pa pe inverse w u :
  strings.HasPrefix k "$" = true ->
  forallb (fun k' => strings.HasPrefix k' "$") (keys rest) = true ->
  operate (VString a) k v pa (pe ++ "." ++ k) w = Return false u ->
  Open.string_map operate (VString a) (VMap ((k, v) :: rest)) pa pe inverse w
  = Return false u.
Proof.
  intros Hk Hrest Hop. unfold Open.string_map.
  cbn [keys map fst forRangeWith]. unfold bind at 1. rewrite Hk.
  unfold index at 1. cbn [lookup]. rewrite String.eqb_refl, Hop.
  now apply skipping_loop.
Qed.

Lemma missingPass expected pa pe ks : forall w,
  forRange (expectedKeyStep [] expected pa pe) ks w
  = Return tt
      (withErrors w
         (map (missingKeyError pa pe)
              (filter (fun k => negb (strings.HasSuffix k "?")) ks))).
Proof.
  induction ks as [|k ks IH]; intros w; cbn [forRange filter map].
  - now rewrite withErrors_nil.
  - unfold bind. rewrite expectedKeyStep_missing by reflexivity.
    rewrite IH. destruct (strings.HasSuffix k "?"); cbn [negb map]; [reflexivity|].
    now rewrite withErrors_cons.
Qed.

(** X11. Against an empty response, the comparison appends one
    [match_error] for each expected key without optional suffix and
    returns; against an empty pattern, it appends one [match_error]
    "Unknown key" for each key of the response and returns. *)
Theorem compareObjects_against_empty m pa pe w :
  compareObjects [] m pa pe w
  = Return tt
      (withErrors w
         (map (missingKeyError pa pe)
              (filter (fun k => negb (strings.HasSuffix k "?")) (keys m))))
  /\ compareObjects m [] pa pe w
     = Return tt (withErrors w (map (unknownKeyError pa pe) (keys m))).
Proof.
  split; rewrite compareObjects_two_passes.
  - cbn [keys map filter]. rewrite withErrors_nil. apply missingPass.
  - cbn [keys map forRange]. unfold ret. do 3 f_equal.
    apply filter_all. apply Forall_forall. reflexivity.
Qed.

End Fields.

(* ================================================================== *)
(** * What a comparison appends, and how it ends *)

Section GenericAppends.
Variable P : Error -> Prop.
Hypothesis operatorErrors :
  forall m a e c, c = "response_error" \/ c = "spec_error" -> P (Error_ m a e c).

Ltac appendsP :=
  repeat first
    [ progress auto with appends
    | apply appendsOnly_bind; [|intro]
    | apply appendsOnly_appendError; apply operatorErrors;
      solve [left; reflexivity | right; reflexivity]
    | apply appendsOnly_forRangeWith; intros
    | match goal with
      | |- appendsOnly _ (if ?b then _ else _) => destruct b
      | |- appendsOnly _ (match ?v with _ => _ end) =>
          lazymatch v with
          | Open.comparatorFor _ _ _ => fail
          | comparatorFor _ _ => fail
          | _ => destruct v
          end
      | |- appendsOnly _ _ => progress cbv beta zeta
      end ].

Context {ext : Collaborators}.

Lemma comparator_appends_any f ta te c :
  (forall a op e pa pe, appendsOnly P (f a op e pa pe)) ->
  Open.comparatorFor f ta te = Some c ->
  forall a e pa pe inverse, appendsOnly P (c a e pa pe inverse).
Proof.
  intros Hf. unfold Open.comparatorFor, Open.equalityOperators. cbn [lookup].
  destruct (String.eqb "string" ta).
  - cbn [lookup]. destruct (String.eqb "string" te).
    { intros Hc a e pa pe inverse; injection Hc as Hc; subst c.
      unfold Open.string_string. appendsP. }
    destruct (String.eqb "map[string]interface {}" te); [|discriminate].
    intros Hc a e pa pe inverse; injection Hc as Hc; subst c.
    unfold Open.string_map. appendsP.
  - destruct (String.eqb "json.Number" ta); [|discriminate]. cbn [lookup].
    destruct (String.eqb "string" te).
    { intros Hc a e pa pe inverse; injection Hc as Hc; subst c.
      unfold Open.number_string. appendsP. }
    destruct (String.eqb "int" te).
    { intros Hc a e pa pe inverse; injection Hc as Hc; subst c.
      unfold Open.number_int. appendsP. }
    destruct (String.eqb "map[string]interface {}" te); [|discriminate].
    intros Hc a e pa pe inverse; injection Hc as Hc; subst c.
    unfold Open.number_map. appendsP.
Qed.

Lemma operate_body_appends_any f :
  (forall a op e pa pe, appendsOnly P (f a op e pa pe)) ->
  forall a op e pa pe, appendsOnly P (Open.operate_body f a op e pa pe).
Proof.
  intros Hf a op e pa pe. unfold Open.operate_body.
  destruct (String.eqb op "$is"); [appendsP|].
  destruct (String.eqb op "$is_not").
  { unfold Open.executeIsOperator. appendsP. }
  destruct (String.eqb op "$ne").
  { unfold Open.executeNeOperator. appendsP.
    match goal with
    | |- appendsOnly _ (match ?c with _ => _ end) => destruct c eqn:E
    end.
    - eapply comparator_appends_any; eauto.
    - unfold Open.unsupported. appendsP. }
  destruct (String.eqb op "$regex"); [|appendsP].
  unfold Open.executeRegexOperator. appendsP.
Qed.

Lemma operate_appends_any a op e pa pe : appendsOnly P (operate a op e pa pe).
Proof.
  unfold operate. generalize (S (height e)) as n. intros n. revert a op e pa pe.
  induction n as [|n IH]; simpl; intros.
  - appendsP.
  - now apply operate_body_appends_any.
Qed.

Lemma expectedKeyStep_appends_any actual expected pa pe k :
  P (missingKeyError pa pe k) ->
  appendsOnly P (expectedKeyStep actual expected pa pe k).
Proof.
  intros Hmissing. unfold expectedKeyStep. rewrite stripped_key.
  destruct (lookup actual (strings.TrimSuffix k "?")) as [v|].
  - destruct (strings.HasPrefix k "$").
    + apply appendsOnly_bind; [apply operate_appends_any | intro; appendsP].
    + appendsP.
      match goal with
      | |- appendsOnly _ (match ?c with _ => _ end) => destruct c eqn:E
      end.
      * apply appendsOnly_bind; [|intro; appendsP].
        eapply comparator_appends_any; [|exact E]. intros. apply operate_appends_any.
      * unfold Open.unsupported. appendsP.
  - destruct (negb (strings.HasSuffix k "?")); [|appendsP].
    apply appendsOnly_appendError. exact Hmissing.
Qed.

End GenericAppends.

Section Invariants.
Context {ext : Collaborators}.

Lemma compareObjects_appends actual expected pa pe :
  appendsOnly comparisonError (compareObjects actual expected pa pe).
Proof.
  assert (Hop : forall m a e c,
             c = "response_error" \/ c = "spec_error" ->
             comparisonError (Error_ m a e c)).
  { intros m a e c Hc. split; [reflexivity|]. simpl. tauto. }
  unfold compareObjects. apply appendsOnly_bind; [|intros _].
  - apply appendsOnly_forRange. intros k. unfold unknownKeyStep.
    destruct (negb (has expected k) && negb (has expected (k ++ "?")));
      [|apply appendsOnly_ret].
    apply appendsOnly_appendError. split; [reflexivity|]. left. reflexivity.
  - apply appendsOnly_forRange. intros k.
    apply expectedKeyStep_appends_any; [exact Hop|].
    split; [reflexivity|]. left. reflexivity.
Qed.

(** X12. Whatever the inputs and however the comparison ends, it only
    appends to [errors]; every diagnostic it appends has one of the three
    categories and an empty [entry], so that the final report cannot name
    the specification file it comes from. *)
Theorem compareObjects_diagnostics actual expected pa pe w :
  exists added,
    errors (final (compareObjects actual expected pa pe w))
    = (errors w ++ added)%list
    /\ Forall comparisonError added.
Proof. apply compareObjects_appends. Qed.

End Invariants.

(** Case analysis on every branch of a computation, for a goal on how it
    ends. *)
Ltac branches_step :=
  silent_step; cbn [typeName String.eqb Ascii.eqb Bool.eqb];
  unfold ret, panic; cbv beta iota zeta.

Ltac branches :=
  repeat progress branches_step;
  repeat (match goal with
          | |- context [match ?x with _ => _ end] =>
              lazymatch x with
              | context [match _ with _ => _ end] => fail
              | _ => destruct x
              end
          end; repeat progress branches_step).

Ltac noexit := intros w u; branches; discriminate.

Section NeverExits.
Context {ext : Collaborators}.

Lemma forRangeWith_neverExits S (body : string -> S -> M S) ks :
  (forall k s, neverExits (body k s)) ->
  forall s, neverExits (forRangeWith body ks s).
Proof.
  intros Hb. induction ks as [|k ks IH]; intros s w u; simpl; [discriminate|].
  unfold bind. destruct (body k s w) as [s' w'|w'|w'] eqn:E.
  - apply IH.
  - discriminate.
  - exfalso. eapply Hb; eauto.
Qed.

Lemma forRange_neverExits body ks :
  (forall k, neverExits (body k)) -> neverExits (forRange body ks).
Proof.
  intros Hb. induction ks as [|k ks IH]; intros w u; simpl; [discriminate|].
  unfold bind. destruct (body k w) as [[] w'|w'|w'] eqn:E.
  - apply IH.
  - discriminate.
  - exfalso. eapply Hb; eauto.
Qed.

Lemma bind_neverExits A B (m : M A) (f : A -> M B) :
  neverExits m -> (forall a, neverExits (f a)) -> neverExits (bind m f).
Proof.
  intros Hm Hf w u. unfold bind. destruct (m w) as [a w'|w'|w'] eqn:E.
  - apply Hf.
  - discriminate.
  - exfalso. eapply Hm; eauto.
Qed.

Lemma mapLoop_neverExits (operateOn : string -> M bool) (report : string -> Error) ks :
  (forall k, neverExits (operateOn k)) ->
  forall r,
    neverExits
      (forRangeWith
         (fun k (result : bool) =>
            if strings.HasPrefix k "$" then
              if result then operateOn k else ret false
            else appendError (report k) ;;; ret false)
         ks r).
Proof.
  intros Hop. apply forRangeWith_neverExits. intros k s.
  destruct (strings.HasPrefix k "$"); [|noexit].
  destruct s; [apply Hop|noexit].
Qed.

Lemma comparator_neverExits f ta te c :
  (forall a op e pa pe, neverExits (f a op e pa pe)) ->
  Open.comparatorFor f ta te = Some c ->
  forall a e pa pe inverse, neverExits (c a e pa pe inverse).
Proof.
  intros Hf. unfold Open.comparatorFor, Open.equalityOperators. cbn [lookup].
  destruct (String.eqb "string" ta).
  - cbn [lookup]. destruct (String.eqb "string" te).
    { intros Hc a e pa pe inverse; injection Hc as Hc; subst c.
      unfold Open.string_string. noexit. }
    destruct (String.eqb "map[string]interface {}" te); [|discriminate].
    intros Hc a e pa pe inverse; injection Hc as Hc; subst c.
    unfold Open.string_map. destruct a; try noexit. destruct e; try noexit.
    apply mapLoop_neverExits with
      (operateOn := fun k => f (VString s) k (index fields k) pa (pe ++ "." ++ k))
      (report := fun _ => Error_ "Cannot mix operators and fields" pa pe "spec_error").
    intros; apply Hf.
  - destruct (String.eqb "json.Number" ta); [|discriminate]. cbn [lookup].
    destruct (String.eqb "string" te).
    { intros Hc a e pa pe inverse; injection Hc as Hc; subst c.
      unfold Open.number_string. noexit. }
    destruct (String.eqb "int" te).
    { intros Hc a e pa pe inverse; injection Hc as Hc; subst c.
      unfold Open.number_int. noexit. }
    destruct (String.eqb "map[string]interface {}" te); [|discriminate].
    intros Hc a e pa pe inverse; injection Hc as Hc; subst c.
    unfold Open.number_map. destruct a; try noexit. destruct e; try noexit.
    apply mapLoop_neverExits with
      (operateOn := fun k => f (VNumber literal) k (index fields k) "" "")
      (report := fun k => Error_ "Cannot mix operators and fields" pa k "spec_error").
    intros; apply Hf.
Qed.

Lemma operate_body_neverExits f :
  (forall a op e pa pe, neverExits (f a op e pa pe)) ->
  forall a op e pa pe, neverExits (Open.operate_body f a op e pa pe).
Proof.
  intros Hf a op e pa pe. unfold Open.operate_body.
  destruct (String.eqb op "$is"); [noexit|].
  destruct (String.eqb op "$is_not").
  { unfold Open.executeIsOperator. noexit. }
  destruct (String.eqb op "$ne").
  { unfold Open.executeNeOperator, Open.unsupported.
    intros w u. unfold bind, TypeOfString, Printf.
    destruct (typeName a) as [ta|]; [|discriminate].
    destruct (typeName e) as [te|]; [|discriminate]. unfold ret.
    destruct (Open.comparatorFor f ta te) eqn:E; [|discriminate].
    eapply comparator_neverExits; eauto. }
  destruct (String.eqb op "$regex"); [|noexit].
  unfold Open.executeRegexOperator. noexit.
Qed.

Lemma operate_neverExits a op e pa pe : neverExits (operate a op e pa pe).
Proof.
  unfold operate. generalize (S (height e)) as n. intros n. revert a op e pa pe.
  induction n as [|n IH]; simpl; intros.
  - noexit.
  - now apply operate_body_neverExits.
Qed.

Lemma expectedKeyStep_neverExits actual expected pa pe k :
  neverExits (expectedKeyStep actual expected pa pe k).
Proof.
  unfold expectedKeyStep. rewrite stripped_key.
  destruct (lookup actual (strings.TrimSuffix k "?")) as [v|]; [|noexit].
  destruct (strings.HasPrefix k "$").
  - apply bind_neverExits; [apply operate_neverExits | intro; noexit].
  - intros w u. unfold bind, TypeOfString.
    destruct (typeName v) as [ta|]; [|discriminate].
    destruct (typeName (index expected k)) as [te|]; [|discriminate]. unfold ret.
    destruct (comparatorFor ta te) as [c|] eqn:E; [|discriminate].
    destruct (c v (index expected k) (pa ++ "." ++ strings.TrimSuffix k "?")
                (pe ++ "." ++ k) false w) eqn:Ec; try discriminate.
    exfalso. revert Ec. eapply comparator_neverExits; [|exact E].
    intros. apply operate_neverExits.
Qed.

Lemma compareObjects_neverExits actual expected pa pe :
  neverExits (compareObjects actual expected pa pe).
Proof.
  intros w u. rewrite compareObjects_two_passes.
  apply forRange_neverExits. intros k. apply expectedKeyStep_neverExits.
Qed.

(** X13. A comparison either returns or panics: it never ends the
    process through [log.Fatal]. *)
Theorem compareObjects_returns_or_panics actual expected pa pe w :
  (exists u, compareObjects actual expected pa pe w = Return tt u)
  \/ (exists u, compareObjects actual expected pa pe w = Panic u).
Proof.
  destruct (compareObjects actual expected pa pe w) as [[] u|u|u] eqn:E.
  - left. eauto.
  - right. eauto.
  - exfalso. revert E. apply compareObjects_neverExits.
Qed.

Lemma expectedKeyPass_panics actual expected pa pe k ks :
  List.In k ks ->
  (forall w, expectedKeyStep actual expected pa pe k w = Panic w) ->
  forall w, exists u,
    forRange (expectedKeyStep actual expected pa pe) ks w = Panic u.
Proof.
  intros Hin Hk. induction ks as [|k' ks IH]; [contradiction|]. intros w.
  cbn [forRange]. unfold bind.
  destruct (expectedKeyStep actual expected pa pe k' w) as [[] w'|w'|w'] eqn:E.
  - destruct Hin as [->|Hin].
    + rewrite Hk in E. discriminate.
    + now apply IH.
  - eauto.
  - exfalso. revert E. apply expectedKeyStep_neverExits.
Qed.

(** X15. A [nil] in the response under a key that the pattern expects as
    an ordinary key (optional or not) makes the whole comparison panic,
    in whatever order the keys are visited. *)
Theorem null_field_panics actual expected pa pe key w :
  List.In key (keys expected) ->
  strings.HasPrefix key "$" = false ->
  lookup actual (strings.TrimSuffix key "?") = Some VNil ->
  exists u, compareObjects actual expected pa pe w = Panic u.
Proof.
  intros Hin Hp Hnil. rewrite compareObjects_two_passes.
  eapply expectedKeyPass_panics; [exact Hin|].
  intros w'. now apply nil_actual_panics.
Qed.

End NeverExits.

Ltac returning := let w := fresh "w" in intros w; branches; eauto.

Section Returns.
Context {ext : Collaborators}.

Lemma forRangeWith_returns S (body : string -> S -> M S) ks :
  (forall k, List.In k ks -> forall s, returns (body k s)) ->
  forall s, returns (forRangeWith body ks s).
Proof.
  induction ks as [|k ks IH]; intros Hb s w; simpl.
  - unfold ret. eauto.
  - unfold bind. destruct (Hb k (or_introl eq_refl) s w) as (s' & w' & ->).
    apply IH. intros k' Hk'. apply Hb. now right.
Qed.

Lemma forRange_returns body ks :
  (forall k, List.In k ks -> returns (body k)) -> returns (forRange body ks).
Proof.
  induction ks as [|k ks IH]; intros Hb w; simpl.
  - unfold ret. eauto.
  - unfold bind. destruct (Hb k (or_introl eq_refl) w) as ([] & w' & ->).
    apply IH. intros k' Hk'. apply Hb. now right.
Qed.

Lemma operandsTyped_lookup fields k v :
  forallb (fun kv => operandsTyped (snd kv)) fields = true ->
  lookup fields k = Some v -> operandsTyped v = true.
Proof.
  induction fields as [|[k' v'] fields IH]; simpl; [discriminate|].
  intros H. apply andb_true_iff in H. destruct H as [Hv Hrest].
  destruct (String.eqb k' k).
  - now intros [= <-].
  - now apply IH.
Qed.

Lemma lookup_key X (m : list (string * X)) k :
  List.In k (keys m) -> exists v, lookup m k = Some v.
Proof.
  induction m as [|[k' v'] m IH]; simpl; [contradiction|].
  intros [->|Hin].
  - rewrite String.eqb_refl. eauto.
  - destruct (String.eqb k' k); eauto.
Qed.

Lemma operandsTyped_index fields k :
  forallb (fun kv => operandsTyped (snd kv)) fields = true ->
  List.In k (keys fields) -> operandsTyped (index fields k) = true.
Proof.
  intros H Hin. unfold index. destruct (lookup_key fields k Hin) as [v Hv].
  rewrite Hv. eapply operandsTyped_lookup; eauto.
Qed.

Lemma operandsTyped_typed v : operandsTyped v = true -> typed v = true.
Proof. now destruct v. Qed.

Lemma mapLoop_returns (operateOn : string -> M bool) (report : string -> Error) ks :
  (forall k, List.In k ks -> returns (operateOn k)) ->
  forall r,
    returns
      (forRangeWith
         (fun k (result : bool) =>
            if strings.HasPrefix k "$" then
              if result then operateOn k else ret false
            else appendError (report k) ;;; ret false)
         ks r).
Proof.
  intros Hop. apply forRangeWith_returns. intros k Hk s.
  destruct (strings.HasPrefix k "$"); [|returning].
  destruct s; [now apply Hop|returning].
Qed.

Lemma comparator_returns f a e ta te c :
  returnsBelow f e ->
  typeName a = Some ta -> typeName e = Some te ->
  operandsTyped e = true ->
  Open.comparatorFor f ta te = Some c ->
  forall pa pe inverse, returns (c a e pa pe inverse).
Proof.
  intros Hf Ha He Hty Hc pa pe inverse.
  unfold Open.comparatorFor, Open.equalityOperators in Hc.
  destruct a; try discriminate Ha; injection Ha as <-;
    destruct e; try discriminate He; injection He as <-;
    simpl in Hc; try discriminate Hc; injection Hc as <-.
  all: try solve [unfold Open.string_string, Open.number_int, Open.number_string;
                  returning].
  - unfold Open.number_map.
    apply mapLoop_returns with
      (operateOn := fun k => f (VNumber literal) k (index fields k) "" "")
      (report := fun k => Error_ "Cannot mix operators and fields" pa k "spec_error").
    intros k Hk. apply Hf; [apply height_index| |reflexivity].
    now apply operandsTyped_index.
  - unfold Open.string_map.
    apply mapLoop_returns with
      (operateOn := fun k => f (VString s) k (index fields k) pa (pe ++ "." ++ k))
      (report := fun _ => Error_ "Cannot mix operators and fields" pa pe "spec_error").
    intros k Hk. apply Hf; [apply height_index| |reflexivity].
    now apply operandsTyped_index.
Qed.

Lemma operate_body_returns f a op e pa pe :
  returnsBelow f e ->
  typed a = true -> operandsTyped e = true ->
  returns (Open.operate_body f a op e pa pe).
Proof.
  intros Hf Ha He. unfold Open.operate_body.
  destruct (String.eqb op "$is"); [returning|].
  destruct (String.eqb op "$is_not").
  { unfold Open.executeIsOperator.
    destruct a; try discriminate Ha; destruct e; try discriminate He; returning. }
  destruct (String.eqb op "$ne").
  { unfold Open.executeNeOperator, Open.unsupported.
    intros w. unfold bind, TypeOfString, Printf.
    destruct (typeName a) as [ta|] eqn:Eta; [|now destruct a].
    destruct (typeName e) as [te|] eqn:Ete; [|now destruct e]. unfold ret.
    destruct (Open.comparatorFor f ta te) eqn:E; [|eauto].
    eapply comparator_returns; eauto. }
  destruct (String.eqb op "$regex"); [|returning].
  unfold Open.executeRegexOperator.
  destruct a; try discriminate Ha; destruct e; try discriminate He; returning.
Qed.

Lemma operate_at_returns n : forall e,
  (height e < n)%nat -> operandsTyped e = true ->
  forall a, typed a = true -> forall op pa pe, returns (operate_at n a op e pa pe).
Proof.
  induction n as [|n IH]; intros e Hn He a Ha op pa pe; [lia|].
  cbn [operate_at]. apply operate_body_returns; try assumption.
  intros v Hv Hty a' Ha' op' pa' pe'. apply IH; [lia|assumption..].
Qed.

Lemma operate_returns a op e pa pe :
  typed a = true -> operandsTyped e = true -> returns (operate a op e pa pe).
Proof. intros Ha He. unfold operate. apply operate_at_returns; auto. Qed.

Lemma typed_lookup (m : object) k v :
  forallb (fun kv => typed (snd kv)) m = true ->
  lookup m k = Some v -> typed v = true.
Proof.
  induction m as [|[k' v'] m IH]; simpl; [discriminate|].
  intros H. apply andb_true_iff in H. destruct H as [Hv Hrest].
  destruct (String.eqb k' k).
  - now intros [= <-].
  - now apply IH.
Qed.

(** X14. A comparison returns when no value of the response is [nil]
    and no value of the pattern is, at any depth of its mappings: the only
    panics of the comparator are those on [nil]. *)
Theorem compareObjects_returns_without_nil actual expected pa pe w :
  forallb (fun kv => typed (snd kv)) actual = true ->
  forallb (fun kv => operandsTyped (snd kv)) expected = true ->
  exists u, compareObjects actual expected pa pe w = Return tt u.
Proof.
  intros Hactual Hexpected. rewrite compareObjects_two_passes.
  match goal with |- context [forRange ?b ?ks ?w0] =>
    destruct (@forRange_returns b ks) with (w := w0) as ([] & u & Hu)
  end; [|eauto].
  intros k Hk w'. unfold expectedKeyStep. rewrite stripped_key.
  destruct (lookup actual (strings.TrimSuffix k "?")) as [v|] eqn:Hv;
    [|revert w'; returning].
  pose proof (typed_lookup _ _ Hactual Hv) as Htv.
  pose proof (operandsTyped_index _ _ Hexpected Hk) as Hte.
  destruct (strings.HasPrefix k "$").
  - unfold bind.
    destruct (@operate_returns v k (index expected k)
                (pa ++ "." ++ strings.TrimSuffix k "?") (pe ++ "." ++ k) Htv Hte w')
      as (b & u & ->).
    unfold ret. eauto.
  - unfold bind, TypeOfString.
    destruct (typeName v) as [ta|] eqn:Eta; [|now destruct v].
    destruct (typeName (index expected k)) as [te|] eqn:Ete;
      [|now destruct (index expected k)].
    unfold ret. destruct (comparatorFor ta te) as [c|] eqn:E.
    + destruct (@comparator_returns operate v (index expected k) ta te c) with
        (pa := pa ++ "." ++ strings.TrimSuffix k "?") (pe := pe ++ "." ++ k)
        (inverse := false) (w := w') as (b & u & ->); eauto.
      intros x Hx Hty a Ha op pa' pe'. now apply operate_returns.
    + unfold Open.unsupported, Printf. eauto.
Qed.

End Returns.

(* ================================================================== *)
(** * More on the resolver and on the run *)

Lemma append_nil_r s : s ++ "" = s.
Proof. induction s as [|c s IH]; simpl; [reflexivity|]. now rewrite IH. Qed.

Lemma append_assoc (a b c : string) : (a ++ b) ++ c = a ++ b ++ c.
Proof. induction a as [|x a IH]; simpl; [reflexivity|]. now rewrite IH. Qed.

Lemma length_append a b : String.length (a ++ b) = (String.length a + String.length b)%nat.
Proof. induction a as [|x a IH]; simpl; [reflexivity|]. now rewrite IH. Qed.

Lemma substring_zero n s : substring n 0 s = "".
Proof.
  revert n. induction s as [|c s IH]; intros [|n]; simpl; try reflexivity. apply IH.
Qed.

Lemma substring_whole s : substring 0 (String.length s) s = s.
Proof. induction s as [|c s IH]; simpl; [reflexivity|]. now rewrite IH. Qed.

Lemma substring_prefix a b : substring 0 (String.length a) (a ++ b) = a.
Proof.
  induction a as [|x a IH]; simpl; [apply (substring_zero 0)|]. now rewrite IH.
Qed.

Lemma substring_suffix a b : substring (String.length a) (String.length b) (a ++ b) = b.
Proof. induction a as [|x a IH]; simpl; [apply substring_whole|]. exact IH. Qed.

Lemma optional_suffix key :
  strings.HasSuffix (key ++ "?") "?" = true
  /\ strings.TrimSuffix (key ++ "?") "?" = key.
Proof.
  assert (H : strings.HasSuffix (key ++ "?") "?" = true).
  { unfold strings.HasSuffix. rewrite length_append. cbn [String.length].
    replace (String.length key + 1 - 1)%nat with (String.length key) by lia.
    pose proof (substring_suffix key "?") as E. cbn [String.length] in E.
    rewrite E. cbn [String.eqb Ascii.eqb Bool.eqb]. rewrite andb_true_r.
    apply Nat.leb_le. lia. }
  split; [exact H|].
  unfold strings.TrimSuffix. rewrite H, length_append. cbn [String.length].
  replace (String.length key + 1 - 1)%nat with (String.length key) by lia.
  apply substring_prefix.
Qed.

(** X25. The optional form [key + "?"] that the first loop of
    [compareObjects] looks for is the one the second loop recognises, and
    stripping it gives [key] back.  So a key of the response that the
    pattern has in its optional form is not reported as unknown, and an
    optional key of the pattern that the response lacks is skipped without
    a diagnostic. *)
Theorem optional_suffix_round_trip key :
  strings.HasSuffix (key ++ "?") "?" = true
  /\ strings.TrimSuffix (key ++ "?") "?" = key
  /\ (forall expected pa pe w,
        has expected (key ++ "?") = true ->
        unknownKeyStep expected pa pe key w = Return tt w)
  /\ (forall (ext : Collaborators) actual expected pa pe w,
        lookup actual key = None ->
        expectedKeyStep actual expected pa pe (key ++ "?") w = Return tt w).
Proof.
  destruct (optional_suffix key) as [Hsuffix Htrim].
  split; [exact Hsuffix|]. split; [exact Htrim|]. split.
  - intros expected pa pe w Hhas. unfold unknownKeyStep.
    now rewrite Hhas, andb_false_r.
  - intros ext actual expected pa pe w Hlookup.
    rewrite expectedKeyStep_missing by now rewrite Htrim.
    now rewrite Hsuffix.
Qed.

Lemma slice_whole value : strings.slice value 0 (strings.len value) = value.
Proof.
  unfold strings.slice, strings.len. rewrite Z.sub_0_r, Nat2Z.id. apply substring_whole.
Qed.

Lemma slice_empty value lo hi : (hi <= lo)%Z -> strings.slice value lo hi = "".
Proof.
  intros H. unfold strings.slice.
  replace (Z.to_nat (hi - lo)) with 0%nat by lia. apply substring_zero.
Qed.

Section MoreResolver.
Context {ext : Collaborators}.

(** X16. A target without ["{{"] is returned as it is: nothing is
    written, and the context is not consulted. *)
Theorem refer_without_placeholder value context fuel w :
  strings.Index value "{{" = (-1)%Z ->
  refer (S fuel) value context w = Some (Return value w).
Proof.
  intros Hs. unfold refer. cbn [refer_loop].
  destruct (0 <? strings.len value)%Z eqn:Hlen.
  - unfold refer_body. rewrite Hs. cbn [Z.geb Z.compare]. unfold ret.
    rewrite slice_whole. cbn [append].
    destruct fuel; cbn [refer_loop]; now rewrite Z.ltb_irrefl.
  - destruct value; [reflexivity|].
    unfold strings.len in Hlen. cbn [String.length] in Hlen.
    apply Z.ltb_ge in Hlen. lia.
Qed.

Lemma refer_first_iteration value context fuel w :
  let startIndex := strings.Index value "{{" in
  let stopIndex := strings.Index value "}}" in
  let snippet :=
    strings_TrimSpace (strings.slice value (startIndex + 2) stopIndex) in
  (0 <= startIndex)%Z ->
  (startIndex + 2 <= stopIndex)%Z ->
  refer (S fuel) value context w
  = match jsonpath_Read context ("$." ++ snippet) with
    | None => Some (Exit (withOutput w "%v %v" [AStr snippet; AVal (VMap context)]))
    | Some (VString text) =>
        refer_loop fuel value context (stopIndex + 2)
          (strings.slice value 0 startIndex ++ text)
          (withOutput w "%v %v" [AStr snippet; AVal (VMap context)])
    | Some _ =>
        Some (Panic (withOutput w "%v %v" [AStr snippet; AVal (VMap context)]))
    end.
Proof.
  intros startIndex stopIndex snippet Hs He.
  unfold refer. cbn [refer_loop]. rewrite (Index_found_nonempty value Hs).
  unfold refer_body. fold startIndex. fold stopIndex.
  replace (startIndex >=? 0)%Z with true by (symmetry; apply Z.geb_le; lia).
  replace (stopIndex >=? startIndex + 2)%Z with true
    by (symmetry; apply Z.geb_le; lia).
  fold snippet. unfold bind, Printf.
  destruct (jsonpath_Read context ("$." ++ snippet)) as [found|]; [|reflexivity].
  destruct found; reflexivity.
Qed.

(** X17. When the first ["{{"] is followed by the first ["}}"] and the
    path between them resolves to a string, [refer] returns the text before
    the placeholder, the string, and all the text after the ["}}"] as it
    is: a second placeholder is not resolved. *)
Theorem refer_resolves_first_placeholder value context text fuel w :
  let startIndex := strings.Index value "{{" in
  let stopIndex := strings.Index value "}}" in
  let snippet :=
    strings_TrimSpace (strings.slice value (startIndex + 2) stopIndex) in
  (0 <= startIndex)%Z ->
  (startIndex + 2 <= stopIndex)%Z ->
  jsonpath_Read context ("$." ++ snippet) = Some (VString text) ->
  refer (S (S fuel)) value context w
  = Some (Return
            (strings.slice value 0 startIndex ++ text
             ++ strings.slice value (stopIndex + 2) (strings.len value))
            (withOutput w "%v %v" [AStr snippet; AVal (VMap context)])).
Proof.
  intros startIndex stopIndex snippet Hs He Hj.
  rewrite (refer_first_iteration value context (S fuel) w Hs He).
  fold startIndex. fold stopIndex. fold snippet. rewrite Hj.
  cbn [refer_loop].
  destruct (stopIndex + 2 <? strings.len value)%Z eqn:Hlen.
  - unfold refer_body. fold startIndex.
    replace (startIndex >=? stopIndex + 2)%Z with false
      by (symmetry; rewrite Z.geb_leb; apply Z.leb_gt; lia).
    unfold ret. rewrite append_assoc.
    destruct fuel; cbn [refer_loop]; now rewrite Z.ltb_irrefl.
  - apply Z.ltb_ge in Hlen. rewrite (@slice_empty value (stopIndex + 2) (strings.len value)) by lia.
    now rewrite append_nil_r.
Qed.

(** X18. When the path of the first placeholder resolves to a value that
    is not a string, [refer] panics on the type assertion. *)
Theorem refer_panics_on_non_string value context found fuel w :
  let startIndex := strings.Index value "{{" in
  let stopIndex := strings.Index value "}}" in
  let snippet :=
    strings_TrimSpace (strings.slice value (startIndex + 2) stopIndex) in
  (0 <= startIndex)%Z ->
  (startIndex + 2 <= stopIndex)%Z ->
  jsonpath_Read context ("$." ++ snippet) = Some found ->
  String.eqb (match typeName found with Some t => t | None => "" end) "string"
  = false ->
  refer (S fuel) value context w
  = Some (Panic (withOutput w "%v %v" [AStr snippet; AVal (VMap context)])).
Proof.
  intros startIndex stopIndex snippet Hs He Hj Hty.
  rewrite (refer_first_iteration value context fuel w Hs He).
  fold startIndex. fold stopIndex. fold snippet. rewrite Hj.
  destruct found; try reflexivity. discriminate Hty.
Qed.

(** X20. An entry whose target is blank adds one [spec_error] "Target
    expected" that names the entry, makes no request, and the run goes on
    with the next entry. *)
Theorem blank_target_is_recorded fuel entry entries context testCase w :
  readConf (longName entry) = Some testCase ->
  String.eqb (strings_TrimSpace (Target testCase)) "" = true ->
  processEntries fuel (entry :: entries) context w
  = processEntries fuel entries context
      (withError w
         (mkError "Target expected" "" "$root.target" "spec_error" entry)).
Proof.
  intros Hconf Hblank. cbn [processEntries]. unfold processEntry.
  now rewrite Hconf, Hblank.
Qed.

(** X21. A target whose method is neither [GET] nor [POST] is announced
    and then skipped: no request is made, nothing is compared and no
    diagnostic is appended. *)
Theorem other_method_is_skipped testCase target method url rest w :
  strings.Split_space target = method :: url :: rest ->
  String.eqb method "GET" = false ->
  String.eqb method "POST" = false ->
  execute testCase target w
  = Return tt (withOutput w ("[*] Executing '%s'" ++ LF) [AStr target]).
Proof.
  intros Hsplit Hget Hpost. unfold execute, bind, Printf.
  now rewrite Hsplit, Hget, Hpost.
Qed.

Lemma split_space_no_space s : forall cur,
  forallb (fun c => negb (Ascii.eqb c " "%char)) (list_ascii_of_string s) = true ->
  strings.split_space cur s = [cur ++ s].
Proof.
  induction s as [|c s IH]; intros cur H; simpl.
  - now rewrite append_nil_r.
  - simpl in H. apply andb_true_iff in H. destruct H as [Hc Hs].
    apply negb_true_iff in Hc. rewrite Hc, (IH _ Hs), append_assoc. reflexivity.
Qed.

(** X22. A resolved target without a space has no second part: after
    announcing it, [processEntry] panics on [parts[1]]. *)
Theorem target_without_space_panics testCase target w :
  forallb (fun c => negb (Ascii.eqb c " "%char)) (list_ascii_of_string target) = true ->
  execute testCase target w
  = Panic (withOutput w ("[*] Executing '%s'" ++ LF) [AStr target]).
Proof.
  intros H. unfold execute, bind, Printf, strings.Split_space.
  now rewrite (split_space_no_space target "" H).
Qed.

(** X24. An operator or a comparator of the table that returns [true]
    has appended no diagnostic. *)
Theorem success_appends_nothing :
  (forall a op e pa pe w u,
     operate a op e pa pe w = Return true u -> errors u = errors w)
  /\ (forall ta te c a e pa pe inverse w u,
        comparatorFor ta te = Some c ->
        c a e pa pe inverse w = Return true u -> errors u = errors w).
Proof.
  split.
  - intros a op e pa pe w u. apply operate_silent.
  - intros ta te c a e pa pe inverse w u Hc.
    eapply comparatorFor_silent; eauto.
Qed.

End MoreResolver.

(* ================================================================== *)
(** * The diagnostics of a run *)

Section WholeRun.
Context {ext : Collaborators}.

Lemma refer_loop_keeps_errors value context fuel : forall index buffer w o,
  refer_loop fuel value context index buffer w = Some o ->
  errors (final o) = errors w.
Proof.
  induction fuel as [|fuel IH]; intros index buffer w o; cbn [refer_loop];
    destruct (index <? strings.len value)%Z; try discriminate;
    try (intros [= <-]; reflexivity).
  unfold refer_body.
  destruct (strings.Index value "{{" >=? index)%Z.
  - destruct (strings.Index value "}}" >=? strings.Index value "{{" + 2)%Z.
    + unfold bind, Printf.
      destruct (jsonpath_Read context _) as [found|]; [|intros [= <-]; reflexivity].
      destruct found; try (intros [= <-]; reflexivity).
      unfold asString, ret. intros H. now rewrite (IH _ _ _ _ H).
    + unfold ret. apply IH.
  - unfold ret. apply IH.
Qed.

Lemma execute_appends testCase target :
  appendsOnly comparisonError (execute testCase target).
Proof.
  unfold execute, printResponse.
  apply appendsOnly_bind; [apply appendsOnly_Printf|intros _].
  destruct (strings.Split_space target) as [|method [|url rest]];
    try apply appendsOnly_panic.
  apply appendsOnly_bind; [|intros _].
  - destruct (String.eqb method "GET"); [|apply appendsOnly_ret].
    destruct (http_Get url); [|apply appendsOnly_log_Fatal].
    apply appendsOnly_bind; [apply appendsOnly_Printf|intros _].
    apply compareObjects_appends.
  - destruct (String.eqb method "POST"); [|apply appendsOnly_ret].
    destruct (http_Post url (In testCase)); [|apply appendsOnly_log_Fatal].
    apply appendsOnly_bind; [apply appendsOnly_Printf|intros _].
    apply compareObjects_appends.
Qed.

Lemma processEntry_appends fuel entry context w o :
  processEntry fuel entry context w = Some o ->
  exists added,
    errors (final o) = (errors w ++ added)%list
    /\ Forall (runError [entry]) added.
Proof.
  unfold processEntry.
  destruct (readConf (longName entry)) as [testCase|].
  - destruct (String.eqb (strings_TrimSpace (Target testCase)) "").
    + intros [= <-]. eexists. split; [reflexivity|].
      constructor; [|constructor]. right. exists entry. simpl. auto.
    + destruct (refer fuel (Target testCase) context w) as [r|] eqn:E;
        [|discriminate].
      apply refer_loop_keeps_errors in E.
      destruct r as [target w'|w'|w']; cbn [final] in E; intros [= <-].
      * destruct (execute_appends testCase target w') as (added & Ha & Hf).
        exists added. rewrite Ha, E. split; [reflexivity|].
        eapply Forall_impl; [|exact Hf]. intros e He. now left.
      * exists []. cbn [final]. now rewrite app_nil_r.
      * exists []. cbn [final]. now rewrite app_nil_r.
  - intros [= <-]. exists []. cbn [final]. now rewrite app_nil_r.
Qed.

Lemma runError_more entries entries' e :
  incl entries entries' -> runError entries e -> runError entries' e.
Proof.
  intros Hincl [H|(entry & Hin & ->)]; [now left|].
  right. exists entry. auto.
Qed.

(** X28. When a run over the entries ends, by returning, panicking or
    exiting, it has only appended to [errors]; every diagnostic added is
    one of a comparison, with no entry, or the one for a blank target,
    which names an entry of the run. *)
Theorem run_only_appends fuel entries context : forall w o,
  processEntries fuel entries context w = Some o ->
  exists added,
    errors (final o) = (errors w ++ added)%list
    /\ Forall (runError entries) added.
Proof.
  induction entries as [|entry entries IH]; intros w o; cbn [processEntries].
  - intros [= <-]. exists []. cbn [final]. now rewrite app_nil_r.
  - destruct (processEntry fuel entry context w) as [r|] eqn:E; [|discriminate].
    destruct (processEntry_appends _ _ _ _ E) as (added1 & H1 & F1).
    assert (F1' : Forall (runError (entry :: entries)) added1).
    { eapply Forall_impl; [|exact F1]. intros e. apply runError_more.
      intros x [->|[]]. now left. }
    destruct r as [[] w'|w'|w']; cbn [final] in H1.
    + intros H. destruct (IH _ _ H) as (added2 & H2 & F2).
      exists (added1 ++ added2)%list. rewrite H2, H1, app_assoc.
      split; [reflexivity|]. apply Forall_app. split; [exact F1'|].
      eapply Forall_impl; [|exact F2]. intros e. apply runError_more.
      intros x Hx. now right.
    + intros [= <-]. exists added1. auto.
    + intros [= <-]. exists added1. auto.
Qed.

End WholeRun.


(* ================================================================== *)
(** * The discovery of the files *)

Lemma foundBelow_deeper longRoot shortRoot name e :
  foundBelow (longRoot ++ PathSeparator ++ name) (shortRoot ++ PathSeparator ++ name) e ->
  foundBelow longRoot shortRoot e.
Proof.
  intros [(path & Hl & Hs) Hv]. split; [|exact Hv].
  exists ((PathSeparator ++ name) ++ path).
  now rewrite Hl, Hs, <- !append_assoc.
Qed.

Lemma listFiles_found dir : forall longRoot shortRoot list out,
  listFiles longRoot shortRoot dir list = Some out ->
  exists added,
    out = (list ++ added)%list /\ Forall (foundBelow longRoot shortRoot) added.
Proof.
  induction dir as [| |entries IH] using node_ind'; try discriminate.
  intros longRoot shortRoot. cbn [listFiles].
  induction IH as [|[name child] entries Hchild _ IHentries]; intros list out.
  - intros [= <-]. exists []. now rewrite app_nil_r.
  - cbn [snd] in Hchild. destruct child.
    + destruct (negb (String.eqb (shortRoot ++ PathSeparator ++ name)
                        ("." ++ PathSeparator ++ "vars.yaml"))) eqn:Hv.
      * intros H. destruct (IHentries _ _ H) as (added & -> & Hadded).
        exists (mkEntry (longRoot ++ PathSeparator ++ name)
                        (shortRoot ++ PathSeparator ++ name) :: added).
        rewrite <- app_assoc. split; [reflexivity|]. constructor; [|exact Hadded].
        split; [exists (PathSeparator ++ name); auto|].
        cbn [shortName]. apply negb_true_iff, String.eqb_neq in Hv. exact Hv.
      * apply IHentries.
    + destruct (listFiles (longRoot ++ PathSeparator ++ name)
                  (shortRoot ++ PathSeparator ++ name) (Dir children) list)
        as [list'|] eqn:E; [|discriminate].
      intros H. destruct (Hchild _ _ _ _ E) as (added1 & -> & H1).
      destruct (IHentries _ _ H) as (added2 & -> & H2).
      exists (added1 ++ added2)%list. rewrite app_assoc. split; [reflexivity|].
      apply Forall_app. split; [|exact H2].
      eapply Forall_impl; [|exact H1]. intros e. apply foundBelow_deeper.
    + discriminate.
Qed.

(** X26. When [listFiles] returns, it has only appended to the list, and
    every entry appended has a long name and a short name that continue
    the two roots with the same relative path, and a short name other than
    [./vars.yaml]. *)
Theorem listFiles_entries dir : forall longRoot shortRoot list out,
  listFiles longRoot shortRoot dir list = Some out ->
  exists added,
    out = (list ++ added)%list /\ Forall (foundBelow longRoot shortRoot) added.
Proof. apply listFiles_found. Qed.

Lemma append_cancel_r (a b s : string) : a ++ s = b ++ s -> a = b.
Proof.
  revert b. induction a as [|x a IH]; intros [|y b] H; simpl in H.
  - reflexivity.
  - exfalso. apply (f_equal String.length) in H. simpl in H.
    rewrite length_append in H. lia.
  - exfalso. apply (f_equal String.length) in H. simpl in H.
    rewrite length_append in H. lia.
  - injection H as -> H. f_equal. now apply IH.
Qed.

Lemma listFiles_lists_file longRoot shortRoot name entries : forall listed out,
  List.In (name, File) entries ->
  String.eqb (shortRoot ++ PathSeparator ++ name) ("." ++ PathSeparator ++ "vars.yaml")
  = false ->
  listFiles longRoot shortRoot (Dir entries) listed = Some out ->
  List.In (mkEntry (longRoot ++ PathSeparator ++ name)
                   (shortRoot ++ PathSeparator ++ name)) out.
Proof.
  induction entries as [|[name' child] entries IH]; intros listed out Hin Hname;
    [contradiction|].
  cbn [listFiles]. cbn [listFiles] in IH. destruct child.
  - destruct Hin as [[= ->]|Hin].
    + rewrite Hname. cbn [negb]. intros H.
      destruct (listFiles_found (Dir entries) longRoot shortRoot _ H)
        as (added & -> & _).
      apply in_or_app. left. apply in_or_app. right. now left.
    + destruct (negb (String.eqb (shortRoot ++ PathSeparator ++ name')
                        ("." ++ PathSeparator ++ "vars.yaml")));
        now apply IH.
  - destruct Hin as [[=]|Hin].
    destruct (listFiles (longRoot ++ PathSeparator ++ name')
                (shortRoot ++ PathSeparator ++ name') (Dir children) listed)
      as [listed'|]; [|discriminate].
    now apply IH.
  - discriminate.
Qed.

(** X27. The variables file is left out only at the root, whatever else
    the directory holds: when the short root is ["."], no entry added for
    the directory is the file [vars.yaml] of that directory; under any
    other short root, a file [vars.yaml] of the directory is listed as a
    specification file. *)
Theorem vars_file_is_excluded_only_at_the_root longRoot shortRoot entries listed out :
  listFiles longRoot shortRoot (Dir entries) listed = Some out ->
  (shortRoot = "." ->
   exists added,
     out = (listed ++ added)%list
     /\ ~ List.In (mkEntry (longRoot ++ "/vars.yaml") "./vars.yaml") added)
  /\ (String.eqb shortRoot "." = false ->
      List.In ("vars.yaml", File) entries ->
      List.In (mkEntry (longRoot ++ "/vars.yaml") (shortRoot ++ "/vars.yaml")) out).
Proof.
  intros H. split.
  - intros _. destruct (listFiles_found _ _ _ _ H) as (added & -> & Hadded).
    exists added. split; [reflexivity|]. intros Hin.
    rewrite Forall_forall in Hadded. destruct (Hadded _ Hin) as [_ Hv].
    now apply Hv.
  - intros Hroot Hin.
    apply (listFiles_lists_file longRoot shortRoot "vars.yaml" entries listed Hin);
      [|exact H].
    apply String.eqb_neq. intros E.
    apply (append_cancel_r shortRoot "." (PathSeparator ++ "vars.yaml")) in E.
    apply String.eqb_neq in Hroot. contradiction.
Qed.

(* ================================================================== *)
(** * More statements on concrete inputs *)

Lemma is_not_operator_witness :
  operate (ext := Demo.env) (VNumber "1") "$is_not" (VString "$json.Number")
    "$root.id" "$root.out.id.$is_not" world0
  = Return false
      (withError world0
         (Error_ "Value type matched" "$root.id" "$root.id.$is_not"
            "response_error")).
Proof.
  exact (@is_not_operator Demo.env (VNumber "1") "json.Number" "$json.Number"
           "$root.id" "$root.out.id.$is_not" world0 eq_refl eq_refl).
Defined.

Lemma is_not_unknown_kind_always_passes_witness :
  operate (ext := Demo.env) (VNumber "1") "$is_not" (VString "$number")
    "$root.id" "$root.out.id.$is_not" world0
  = Return true world0.
Proof.
  exact (@is_not_unknown_kind_always_passes Demo.env (VNumber "1") "json.Number"
           "$number" "$root.id" "$root.out.id.$is_not" world0
           eq_refl eq_refl eq_refl).
Defined.

Lemma is_not_rejects_operand_witness :
  operate (ext := Demo.env) (VString "Everest") "$is_not" (VString "string")
    "$root.name" "$root.out.name.$is_not" world0
  = Return false
      (withError world0
         (Error_ "$is_not operator expects type name" "$root.name"
            "$root.out.name.$is_not" "spec_error")).
Proof.
  exact (@is_not_rejects_operand Demo.env (VString "Everest") (VString "string")
           "string" "$root.name" "$root.out.name.$is_not" world0 eq_refl eq_refl).
Defined.

Lemma regex_rejects_operand_witness :
  operate (ext := Demo.env) VNil "$regex" (VInt 5)
    "$root.name" "$root.out.name.$regex" world0
  = Return false
      (withError world0
         (Error_ "$regex operator expects regex pattern" "$root.name"
            "$root.out.name.$regex" "spec_error")).
Proof.
  exact (@regex_rejects_operand Demo.env VNil (VInt 5) "int"
           "$root.name" "$root.out.name.$regex" world0 eq_refl eq_refl).
Defined.

Lemma unknown_operator_fails_silently_witness :
  operate (ext := Demo.env) (VString "Everest") "$eq" (VString "Everest")
    "$root.name" "$root.out.name.$eq" world0
  = Return false world0.
Proof.
  exact (@unknown_operator_fails_silently Demo.env (VString "Everest") "$eq"
           (VString "Everest") "$root.name" "$root.out.name.$eq" world0 eq_refl).
Defined.

Lemma string_field_witness :
  expectedKeyStep (ext := Demo.env)
    [("name", VString "Everest")] [("name?", VString "K2")]
    "$root" "$root.out" "name?" world0
  = Return tt
      (withError world0
         (Error_ "Values are not equal" "$root.name" "$root.out.name?"
            "response_error")).
Proof.
  exact (@string_field Demo.env
           [("name", VString "Everest")] [("name?", VString "K2")]
           "$root" "$root.out" "name?" "Everest" "K2" world0
           eq_refl eq_refl eq_refl).
Defined.

Lemma number_field_against_int_witness :
  expectedKeyStep (ext := Demo.env)
    [("id", VNumber "1.0")] [("id", VInt 1)] "$root" "$root.out" "id" world0
  = Return tt
      (withError world0
         (Error_ "Values are not equal" "$root.id" "$root.out.id"
            "response_error")).
Proof.
  exact (@number_field_against_int Demo.env
           [("id", VNumber "1.0")] [("id", VInt 1)] "$root" "$root.out" "id"
           "1.0" 1 world0 eq_refl eq_refl eq_refl).
Defined.

Lemma number_field_against_string_witness :
  expectedKeyStep (ext := Demo.env)
    [("id", VNumber "5")] [("id", VString "5")] "$root" "$root.out" "id" world0
  = Return tt
      (withError world0
         (Error_ "Values are not equal" "$root.id" "$root.out.id"
            "response_error")).
Proof.
  exact (@number_field_against_string Demo.env
           [("id", VNumber "5")] [("id", VString "5")] "$root" "$root.out" "id"
           "5" "5" world0 eq_refl eq_refl eq_refl).
Defined.

Lemma fields_under_a_scalar_witness :
  Open.number_map (operate (ext := Demo.env)) (VNumber "1")
    (VMap [("first", VString "a"); ("last", VString "b")])
    "$root.id" "$root.out.id" false world0
  = Return false
      (withErrors world0
         [ Error_ "Cannot mix operators and fields" "$root.id" "first" "spec_error";
           Error_ "Cannot mix operators and fields" "$root.id" "last" "spec_error" ]).
Proof.
  exact (proj2 (@fields_under_a_scalar Demo.env
                  [("first", VString "a"); ("last", VString "b")]
                  "$root.id" "$root.out.id" false world0 eq_refl) "1").
Defined.

Lemma operators_stop_at_first_failure_witness :
  Open.string_map (operate (ext := Demo.env)) (VString "Everest")
    (VMap [("$regex", VString "K2"); ("$ne", VString "Everest")])
    "$root.name" "$root.out.name" false world0
  = Return false
      (withError (withRegexCall world0 "K2" "Everest")
         (Error_ "Regex mismatch" "$root.name" "$root.out.name.$regex"
            "response_error")).
Proof.
  exact (@operators_stop_at_first_failure Demo.env "Everest" "$regex"
           (VString "K2") [("$ne", VString "Everest")]
           "$root.name" "$root.out.name" false world0 _
           eq_refl eq_refl eq_refl).
Defined.

Lemma compareObjects_returns_without_nil_witness :
  exists u,
    compareObjects (ext := Demo.env)
      [("id", VNumber "1"); ("tags", VSlice [VNil])]
      [("id", VMap [("$ne", VMap [("$regex", VInt 3)])]); ("tags", VBool true)]
      "$root" "$root.out" world0
    = Return tt u.
Proof.
  exact (@compareObjects_returns_without_nil Demo.env
           [("id", VNumber "1"); ("tags", VSlice [VNil])]
           [("id", VMap [("$ne", VMap [("$regex", VInt 3)])]); ("tags", VBool true)]
           "$root" "$root.out" world0 eq_refl eq_refl).
Defined.

Lemma null_field_panics_witness :
  exists u,
    compareObjects (ext := Demo.env)
      [("id", VNumber "1"); ("name", VNil)]
      [("id", VString "$number"); ("name?", VString "$string")]
      "$root" "$root.out" world0
    = Panic u.
Proof.
  apply (@null_field_panics Demo.env
           [("id", VNumber "1"); ("name", VNil)]
           [("id", VString "$number"); ("name?", VString "$string")]
           "$root" "$root.out" "name?" world0).
  - simpl. auto.
  - reflexivity.
  - reflexivity.
Defined.

Lemma refer_without_placeholder_witness :
  refer (ext := Demo.env) 1 "GET http://localhost/mountains/1" [] world0
  = Some (Return "GET http://localhost/mountains/1" world0).
Proof.
  exact (@refer_without_placeholder Demo.env "GET http://localhost/mountains/1"
           [] 0 world0 eq_refl).
Defined.

Lemma refer_resolves_first_placeholder_witness :
  refer (ext := Demo.env) 2 "GET {{ vars.host }}/mountains/{{vars.id}}"
    Demo.context world0
  = Some (Return "GET http://localhost/mountains/{{vars.id}}"
            (withOutput world0 "%v %v" [AStr "vars.host"; AVal (VMap Demo.context)])).
Proof.
  assert (Hs : (0 <= strings.Index "GET {{ vars.host }}/mountains/{{vars.id}}" "{{")%Z)
    by (vm_compute; discriminate).
  assert (He : (strings.Index "GET {{ vars.host }}/mountains/{{vars.id}}" "{{" + 2
                <= strings.Index "GET {{ vars.host }}/mountains/{{vars.id}}" "}}")%Z)
    by (vm_compute; discriminate).
  exact (@refer_resolves_first_placeholder Demo.env
           "GET {{ vars.host }}/mountains/{{vars.id}}" Demo.context
           "http://localhost" 0 world0 Hs He eq_refl).
Defined.

Lemma refer_panics_on_non_string_witness :
  refer (ext := Demo.env) 1 "GET localhost:{{vars.port}}" Demo.context world0
  = Some (Panic
            (withOutput world0 "%v %v" [AStr "vars.port"; AVal (VMap Demo.context)])).
Proof.
  assert (Hs : (0 <= strings.Index "GET localhost:{{vars.port}}" "{{")%Z)
    by (vm_compute; discriminate).
  assert (He : (strings.Index "GET localhost:{{vars.port}}" "{{" + 2
                <= strings.Index "GET localhost:{{vars.port}}" "}}")%Z)
    by (vm_compute; discriminate).
  exact (@refer_panics_on_non_string Demo.env "GET localhost:{{vars.port}}"
           Demo.context (VNumber "80") 0 world0 Hs He eq_refl eq_refl).
Defined.


Lemma blank_target_is_recorded_witness :
  processEntries (ext := Demo.envWith Demo.files []) 0 (tl Demo.entries) [] world0
  = Some (Return tt
            (withError world0
               (mkError "Target expected" "" "$root.target" "spec_error"
                  (mkEntry "./b.yaml" "./b.yaml")))).
Proof.
  exact (@blank_target_is_recorded (Demo.envWith Demo.files []) 0
           (mkEntry "./b.yaml" "./b.yaml") [] [] (mkTestCase "   " [] []) world0
           eq_refl eq_refl).
Defined.

Lemma other_method_is_skipped_witness :
  execute (ext := Demo.env) (mkTestCase "PUT http://localhost/x" [] [("id", VInt 1)])
    "PUT http://localhost/x" world0
  = Return tt
      (withOutput world0 ("[*] Executing '%s'" ++ LF) [AStr "PUT http://localhost/x"]).
Proof.
  exact (@other_method_is_skipped Demo.env
           (mkTestCase "PUT http://localhost/x" [] [("id", VInt 1)])
           "PUT http://localhost/x" "PUT" "http://localhost/x" [] world0
           eq_refl eq_refl eq_refl).
Defined.

Lemma target_without_space_panics_witness :
  execute (ext := Demo.env) (mkTestCase "GET" [] []) "GET" world0
  = Panic (withOutput world0 ("[*] Executing '%s'" ++ LF) [AStr "GET"]).
Proof.
  exact (@target_without_space_panics Demo.env (mkTestCase "GET" [] []) "GET"
           world0 eq_refl).
Defined.

Lemma compareObjects_accepted_witness :
  exists u,
    compareObjects (ext := Demo.env)
      [("id", VNumber "7"); ("name", VString "Everest")]
      [("id", VInt 7); ("name", VMap [("$ne", VString "K2")])]
      "$root" "$root.out" world0
    = Return tt u
    /\ errors u = errors world0.
Proof.
  apply (@compareObjects_accepted Demo.env).
  - intros k [<-|[<-|[]]]; reflexivity.
  - intros k [<-|[<-|[]]].
    + exists (VNumber "7"), "json.Number", "int", Open.number_int.
      repeat (split; [reflexivity|]). intros w. eexists. reflexivity.
    + exists (VString "Everest"), "string", "map[string]interface {}",
        (Open.string_map (operate (ext := Demo.env))).
      repeat (split; [reflexivity|]). intros w. eexists. reflexivity.
Defined.

Lemma success_appends_nothing_witness :
  operate (ext := Demo.env) (VString "Mount Everest") "$regex" (VString "Mount")
    "$root.name" "$root.out.name.$regex" world0
  = Return true (withRegexCall world0 "Mount" "Mount Everest")
  /\ errors (withRegexCall world0 "Mount" "Mount Everest") = errors world0.
Proof.
  split; [reflexivity|].
  exact (proj1 (@success_appends_nothing Demo.env)
           (VString "Mount Everest") "$regex" (VString "Mount")
           "$root.name" "$root.out.name.$regex" world0
           (withRegexCall world0 "Mount" "Mount Everest") eq_refl).
Defined.

Lemma listFiles_entries_witness :
  exists added,
    [ mkEntry "/work/mountains/everest.yaml" "./mountains/everest.yaml";
      mkEntry "/work/mountains/vars.yaml" "./mountains/vars.yaml" ]
    = ([] ++ added)%list
    /\ Forall (foundBelow "/work" ".") added.
Proof.
  exact (@listFiles_entries Demo.tree "/work" "." [] _ eq_refl).
Defined.

Lemma vars_file_is_excluded_only_at_the_root_witness :
  List.In (mkEntry "/work/mountains/vars.yaml" "./mountains/vars.yaml")
    [ mkEntry "/work/mountains/everest.yaml" "./mountains/everest.yaml";
      mkEntry "/work/mountains/vars.yaml" "./mountains/vars.yaml" ]
  /\ exists added,
       [ mkEntry "/work/mountains/everest.yaml" "./mountains/everest.yaml";
         mkEntry "/work/mountains/vars.yaml" "./mountains/vars.yaml" ]
       = ([] ++ added)%list
       /\ ~ List.In (mkEntry "/work/vars.yaml" "./vars.yaml") added.
Proof.
  split.
  - apply (proj2 (@vars_file_is_excluded_only_at_the_root
                    "/work/mountains" "./mountains"
                    [("everest.yaml", File); ("vars.yaml", File)] [] _ eq_refl)).
    + reflexivity.
    + simpl. auto.
  - exact (proj1 (@vars_file_is_excluded_only_at_the_root "/work" "."
                    [ ("mountains", Dir [ ("everest.yaml", File); ("vars.yaml", File) ]);
                      ("vars.yaml", File) ] [] _ eq_refl) eq_refl).
Defined.

Lemma run_only_appends_witness :
  exists added,
    errors (withError world0
              (mkError "Target expected" "" "$root.target" "spec_error"
                 (mkEntry "./b.yaml" "./b.yaml")))
    = (errors world0 ++ added)%list
    /\ Forall (runError (tl Demo.entries)) added.
Proof.
  exact (@run_only_appends (Demo.envWith Demo.files []) 0 (tl Demo.entries) []
           world0 _ eq_refl).
Defined.

Lemma optional_suffix_round_trip_witness :
  unknownKeyStep [("tag?", VString "$string")] "$root" "$root.out" "tag" world0
  = Return tt world0
  /\ expectedKeyStep (ext := Demo.env)
       [("id", VNumber "1")] [("tag?", VString "$string")]
       "$root" "$root.out" "tag?" world0
     = Return tt world0.
Proof.
  split.
  - exact (proj1 (proj2 (proj2 (optional_suffix_round_trip "tag")))
             [("tag?", VString "$string")] "$root" "$root.out" world0 eq_refl).
  - exact (proj2 (proj2 (proj2 (optional_suffix_round_trip "tag")))
             Demo.env [("id", VNumber "1")] [("tag?", VString "$string")]
             "$root" "$root.out" world0 eq_refl).
Defined.
